(** * Request configuration and authorization of the Kinvey request layer

    A shallow embedding of [src/requests/request.js]: the [Headers] class,
    the [Auth] strategies, [RequestConfig] / [KinveyRequestConfig] and
    [Request] / [KinveyRequest], followed by the properties of the
    specification that concern them.

    JavaScript objects are mutable; a method is embedded as a function from
    the receiver's state to a completion (normal return or thrown error)
    paired with the receiver's state afterwards.  A mutation made before an
    exception is thrown stays visible, so the state is returned in both
    cases. *)

From Stdlib Require Import String Ascii List ZArith Bool Lia.
From Stdlib Require Import DecimalString.
Import ListNotations.
Open Scope string_scope.
Open Scope Z_scope.
Set Warnings "-register-all".

(** ** JavaScript values and strings *)

Module Js.

(** The values the request layer handles: [undefined], [null], booleans,
    integral numbers, strings, plain objects and functions.  A plain object
    is the list of its own enumerable properties in the order [Object.keys]
    lists them.  A function is an ordinary function expression, given by its
    source text, which is what [String] makes of it, and by the value a call
    of it returns (a function that throws or writes, an arrow function and a
    built-in constructor are not covered; nor are symbols).  Strings are
    sequences of code units below 128 (for these the UTF-8 byte count is the
    length). *)
Inductive JsValue : Type :=
| JsUndefined
| JsNull
| JsBool (b : bool)
| JsNumber (n : Z)
| JsString (s : string)
| JsObject (props : list (string * JsValue))
| JsFunction (source : string) (returns : JsValue).

Inductive JsError : Type :=
| Error (message : string)
| TypeError (message : string)
| RangeError (message : string)
| NoActiveUserError (message : string)
| KinveyError (message : string).

(** ToBoolean. *)
Definition truthy (v : JsValue) : bool :=
  match v with
  | JsUndefined | JsNull => false
  | JsBool b => b
  | JsNumber n => negb (n =? 0)
  | JsString s => negb (s =? "")%string
  | JsObject _ => true
  | JsFunction _ _ => true
  end.

(** lodash [isString] and [isPlainObject]. *)
Definition isString (v : JsValue) : bool :=
  match v with JsString _ => true | _ => false end.

Definition isPlainObject (v : JsValue) : bool :=
  match v with JsObject _ => true | _ => false end.

Definition isNumber (v : JsValue) : bool :=
  match v with JsNumber _ => true | _ => false end.

Definition number_to_string (n : Z) : string :=
  NilZero.string_of_int (Z.to_int n).

(** [String(v)], also the conversion of a template literal's hole.  An
    object is converted by [Object.prototype.toString]; objects with a
    [toString] or [valueOf] member of their own are not covered. *)
Definition String (v : JsValue) : string :=
  match v with
  | JsUndefined => "undefined"
  | JsNull => "null"
  | JsBool true => "true"
  | JsBool false => "false"
  | JsNumber n => number_to_string n
  | JsString s => s
  | JsObject _ => "[object Object]"
  | JsFunction source _ => source
  end.

(** lodash [isObject]: an object or a function. *)
Definition isObject (v : JsValue) : bool :=
  match v with
  | JsObject _ | JsFunction _ _ => true
  | _ => false
  end.

(** [typeof v]. *)
Definition typeof (v : JsValue) : string :=
  match v with
  | JsUndefined => "undefined"
  | JsNull => "object"
  | JsBool _ => "boolean"
  | JsNumber _ => "number"
  | JsString _ => "string"
  | JsObject _ => "object"
  | JsFunction _ _ => "function"
  end.

Definition map_string (f : ascii -> ascii) : string -> string :=
  fix go (s : string) : string :=
    match s with
    | EmptyString => EmptyString
    | String.String c r => String.String (f c) (go r)
    end.

Definition lower_ascii (c : ascii) : ascii :=
  let n := nat_of_ascii c in
  if andb (Nat.leb 65 n) (Nat.leb n 90) then ascii_of_nat (n + 32) else c.

Definition upper_ascii (c : ascii) : ascii :=
  let n := nat_of_ascii c in
  if andb (Nat.leb 97 n) (Nat.leb n 122) then ascii_of_nat (n - 32) else c.

Definition toLowerCase : string -> string := map_string lower_ascii.
Definition toUpperCase : string -> string := map_string upper_ascii.

(** White space removed by [String.prototype.trim], below code unit 128:
    tab, line feed, vertical tab, form feed, carriage return, space. *)
Definition is_space (c : ascii) : bool :=
  let n := nat_of_ascii c in
  orb (andb (Nat.leb 9 n) (Nat.leb n 13)) (Nat.eqb n 32).

Fixpoint trim_start (s : string) : string :=
  match s with
  | EmptyString => EmptyString
  | String.String c r => if is_space c then trim_start r else s
  end.

Fixpoint rev_string (acc s : string) : string :=
  match s with
  | EmptyString => acc
  | String.String c r => rev_string (String.String c acc) r
  end.

Definition trim (s : string) : string :=
  rev_string "" (trim_start (rev_string "" (trim_start s))).

(** *** Property access on plain objects *)

(** [o[k]] for a plain object: the own property, [undefined] when absent. *)
Fixpoint lookup (k : string) (o : list (string * JsValue)) : JsValue :=
  match o with
  | [] => JsUndefined
  | (k', v) :: r => if (k' =? k)%string then v else lookup k r
  end.

Fixpoint has_key (k : string) (o : list (string * JsValue)) : bool :=
  match o with
  | [] => false
  | (k', _) :: r => if (k' =? k)%string then true else has_key k r
  end.

(** [v[k]] for any value: a primitive or a function has no own data
    property of the names used here; [undefined] and [null] throw. *)
Definition member (v : JsValue) (k : string) : JsValue + JsError :=
  match v with
  | JsUndefined => inr (TypeError ("Cannot read property '" ++ k ++ "' of undefined"))
  | JsNull => inr (TypeError ("Cannot read property '" ++ k ++ "' of null"))
  | JsObject o => inl (lookup k o)
  | _ => inl JsUndefined
  end.

(** An array index is a canonical decimal numeral below 2^32 - 1; such
    property names are enumerated first, in ascending numeric order, and the
    other names follow in the order of their creation. *)
Definition is_digit (c : ascii) : bool :=
  let n := nat_of_ascii c in andb (Nat.leb 48 n) (Nat.leb n 57).

Fixpoint parse_digits (acc : Z) (s : string) : option Z :=
  match s with
  | EmptyString => Some acc
  | String.String c r =>
      if is_digit c
      then parse_digits (10 * acc + (Z.of_nat (nat_of_ascii c) - 48)) r
      else None
  end.

Definition array_index (k : string) : option Z :=
  match k with
  | EmptyString => None
  | String.String c r =>
      if andb (Nat.eqb (nat_of_ascii c) 48) (negb (r =? "")%string) then None
      else match parse_digits 0 k with
           | Some n => if n <? 4294967295 then Some n else None
           | None => None
           end
  end.

(** Position of a new property [k] among the existing ones. *)
Fixpoint insert_new (k : string) (v : JsValue) (o : list (string * JsValue))
  : list (string * JsValue) :=
  match o with
  | [] => [(k, v)]
  | (k', v') :: r =>
      match array_index k, array_index k' with
      | Some i, Some i' =>
          if i <? i' then (k, v) :: o else (k', v') :: insert_new k v r
      | Some _, None => (k, v) :: o
      | None, _ => (k', v') :: insert_new k v r
      end
  end.

Fixpoint update (k : string) (v : JsValue) (o : list (string * JsValue))
  : list (string * JsValue) :=
  match o with
  | [] => []
  | (k', v') :: r =>
      if (k' =? k)%string then (k', v) :: r else (k', v') :: update k v r
  end.

(** [o[k] = v]: an existing property keeps its place.  An assignment to
    [__proto__] reaches the accessor of [Object.prototype] and creates no
    own property. *)
Definition assign (k : string) (v : JsValue) (o : list (string * JsValue))
  : list (string * JsValue) :=
  if (k =? "__proto__")%string then o
  else if has_key k o then update k v o else insert_new k v o.

(** [delete o[k]]. *)
Fixpoint delete (k : string) (o : list (string * JsValue))
  : list (string * JsValue) :=
  match o with
  | [] => []
  | (k', v') :: r =>
      if (k' =? k)%string then r else (k', v') :: delete k r
  end.

(** lodash [isEmpty] on a plain object. *)
Definition isEmpty (o : list (string * JsValue)) : bool :=
  match o with [] => true | _ => false end.

(** lodash [result(object, 'toJSON', object)]: a defined [toJSON] property
    replaces the object, by what it returns when it is a function and by
    itself otherwise. *)
Definition result_toJSON (v : JsValue) : JsValue :=
  match v with
  | JsObject o =>
      match lookup "toJSON" o with
      | JsUndefined => v
      | JsFunction _ returns => returns
      | w => w
      end
  | _ => v
  end.

(** *** JSON.stringify *)

Definition dquote : string := String.String (ascii_of_nat 34) EmptyString.

Definition hex_digit (n : nat) : ascii :=
  if Nat.ltb n 10 then ascii_of_nat (48 + n) else ascii_of_nat (87 + n).

Definition escape_char (c : ascii) : string :=
  let n := nat_of_ascii c in
  if Nat.eqb n 34 then "\" ++ dquote
  else if Nat.eqb n 92 then "\\"
  else if Nat.eqb n 8 then "\b"
  else if Nat.eqb n 12 then "\f"
  else if Nat.eqb n 10 then "\n"
  else if Nat.eqb n 13 then "\r"
  else if Nat.eqb n 9 then "\t"
  else if Nat.ltb n 32
       then "\u00" ++ String.String (hex_digit (Nat.div n 16))
                        (String.String (hex_digit (Nat.modulo n 16)) "")
       else String.String c "".

Fixpoint escape (s : string) : string :=
  match s with
  | EmptyString => EmptyString
  | String.String c r => escape_char c ++ escape r
  end.

Definition quote (s : string) : string := dquote ++ escape s ++ dquote.

Fixpoint join (sep : string) (l : list string) : string :=
  match l with
  | [] => ""
  | [x] => x
  | x :: r => x ++ sep ++ join sep r
  end.

(** The serialization of [JSON.stringify]: [None] is [undefined], which is
    what a function serializes to; a property whose value serializes to
    [undefined] is left out of its object.  With [own] set, the [toJSON]
    member of an object is called when it is a function and what it returns
    is serialized in the object's place (without a call of the [toJSON] of
    that value). *)
Fixpoint JSON_serialize (own : bool) (v : JsValue) : option string :=
  match v with
  | JsUndefined => None
  | JsNull => Some "null"
  | JsBool true => Some "true"
  | JsBool false => Some "false"
  | JsNumber n => Some (number_to_string n)
  | JsString s => Some (quote s)
  | JsFunction _ _ => None
  | JsObject props =>
      let called :=
        (fix toJSON (ps : list (string * JsValue)) : option (option string) :=
           match ps with
           | [] => None
           | (k, w) :: r =>
               if (k =? "toJSON")%string then
                 match w with
                 | JsFunction _ returns => Some (JSON_serialize false returns)
                 | _ => None
                 end
               else toJSON r
           end) props in
      let members :=
        (fix members (ps : list (string * JsValue)) : list string :=
           match ps with
           | [] => []
           | (k, w) :: r =>
               match JSON_serialize true w with
               | Some t => (quote k ++ ":" ++ t) :: members r
               | None => members r
               end
           end) props in
      match (if own then called else None) with
      | Some s => s
      | None => Some ("{" ++ join "," members ++ "}")
      end
  end.

(** [JSON.stringify(v)]. *)
Definition JSON_stringify (v : JsValue) : option string := JSON_serialize true v.

End Js.

Import Js.

(** ** Completions and methods *)

Inductive Completion (A : Type) : Type :=
| Return (a : A)
| Throw (e : JsError).
Arguments Return {A} a.
Arguments Throw {A} e.

(** A method of a class whose instances have state [S]. *)
Definition Method (S A : Type) : Type := S -> Completion A * S.

Definition ret {S A} (a : A) : Method S A := fun s => (Return a, s).

Definition throw {S A} (e : JsError) : Method S A := fun s => (Throw e, s).

Definition bind {S A B} (m : Method S A) (k : A -> Method S B) : Method S B :=
  fun s =>
    match m s with
    | (Return a, s') => k a s'
    | (Throw e, s') => (Throw e, s')
    end.

Notation "x <- m ;; k" := (bind m (fun x => k))
  (at level 61, m at next level, right associativity).
Notation "m ;;; k" := (bind m (fun _ => k))
  (at level 61, right associativity).

(** Calling a member the class does not declare: the callee is [undefined]
    and the call throws before anything else happens. *)
Definition call_undeclared {S A} (callee : string) : Method S A :=
  throw (TypeError (callee ++ " is not a function")).

(** [forEach(xs, f)]: an exception leaves the loop. *)
Fixpoint forEach {S A} (xs : list A) (f : A -> Method S unit) : Method S unit :=
  match xs with
  | [] => ret tt
  | x :: r => f x ;;; forEach r f
  end.

(** ** class Headers *)

Record Headers : Type := { headers : option (list (string * JsValue)) }.

(** [this.headers || {}]. *)
Definition headers_or_empty (h : Headers) : list (string * JsValue) :=
  match headers h with
  | Some o => o
  | None => []
  end.

(** [if (!isString(name)) name = String(name)]. *)
Definition name_string (name : JsValue) : string :=
  match name with
  | JsString s => s
  | _ => String name
  end.

(** The [for] loop of [get] over [Object.keys(headers)]. *)
Fixpoint Headers_get_loop (o : list (string * JsValue)) (keys : list string)
  (name : string) : JsValue :=
  match keys with
  | [] => JsUndefined
  | key :: r =>
      if (toLowerCase key =? toLowerCase name)%string then lookup key o
      else Headers_get_loop o r name
  end.

Definition Headers_get (name : JsValue) (h : Headers) : JsValue :=
  if truthy name then
    let name := name_string name in
    let o := headers_or_empty h in
    Headers_get_loop o (map fst o) name
  else JsUndefined.

Definition JSON_stringify_value (v : JsValue) : JsValue :=
  match JSON_stringify v with
  | Some s => JsString s
  | None => JsUndefined
  end.

Definition Headers_set (name value : JsValue) : Method Headers unit :=
  fun h =>
    if negb (truthy name) || negb (truthy value) then
      (Throw (Error "A name and value must be provided to set a header."), h)
    else
      let name := name_string name in
      let o := headers_or_empty h in
      let o' := if negb (isString value)
                then assign name (JSON_stringify_value value) o
                else assign name value o in
      (Return tt, {| headers := Some o' |}).

Definition Headers_has (name : JsValue) (h : Headers) : bool :=
  truthy (Headers_get name h).

(** [add] and [addAll] call [this.setHeader], a member [Headers] does not
    declare (its members are get, set, has, add, addAll, remove, clear and
    toJSON). *)
Definition Headers_setHeader (name value : JsValue) : Method Headers unit :=
  call_undeclared "this.setHeader".

Definition Headers_add (header : JsValue) : Method Headers unit :=
  fun h =>
    let header := match header with JsUndefined => JsObject [] | _ => header end in
    match member header "name", member header "value" with
    | inl n, inl v => Headers_setHeader n v h
    | inr e, _ => (Throw e, h)
    | _, inr e => (Throw e, h)
    end.

Definition Headers_addAll (arg : JsValue) : Method Headers unit :=
  match arg with
  | JsObject o =>
      let names := map fst o in
      forEach names (fun name =>
        let value := lookup name o in
        Headers_setHeader (JsString name) value)
  | _ => throw (Error "Headers argument must be an object.")
  end.

Definition Headers_remove (name : JsValue) : Method Headers unit :=
  fun h =>
    if truthy name then
      let name := name_string name in
      let o := headers_or_empty h in
      (Return tt, {| headers := Some (delete name o) |})
    else (Return tt, h).

Definition Headers_clear : Method Headers unit :=
  fun _ => (Return tt, {| headers := Some [] |}).

Definition Headers_toJSON (h : Headers) : JsValue :=
  match headers h with
  | Some o => JsObject o
  | None => JsUndefined
  end.

(** [new Headers(arg)], with the parameter's default [{}]. *)
Definition Headers_new (arg : JsValue) : Completion Headers :=
  let arg := match arg with JsUndefined => JsObject [] | _ => arg end in
  match Headers_addAll arg {| headers := None |} with
  | (Return _, h) => Return h
  | (Throw e, _) => Throw e
  end.

(** ** Environment *)

(** The tunables read from [process.env] when the module is loaded, and the
    imported functions the module calls but does not define. *)
Record Env : Type := {
  kmdAttribute : string;
  defaultTimeout : JsValue;
  defaultApiVersion : JsValue;
  (** the number [customPropertiesMaxBytesAllowed] compares as *)
  customPropertiesMaxBytesAllowed : Z;
  (** [appendQuery(uri, q)] of the append-query package *)
  appendQuery : JsValue -> string -> string;
  (** [qs.stringify(object)] of the qs package *)
  qs_stringify : list (string * JsValue) -> string;
  (** the [appKey], [collection] and [entityId] that the url-pattern match
      of [escape(url.parse(urlString).pathname)] yields, each [undefined]
      when the pattern leaves it out *)
  pathSegments : JsValue -> JsValue * JsValue * JsValue;
  (** [global.unescape] *)
  unescape : JsValue -> JsValue
}.

(** ** Client and Auth *)

Module Client.
(** The fields of the client that [Auth] reads. *)
Record t : Type := {
  appKey : JsValue;
  appSecret : JsValue;
  masterSecret : JsValue;
  activeUser : JsValue
}.
End Client.

(** The record an [Auth] strategy returns; an absent property is
    [JsUndefined]. *)
Record AuthInfo : Type := {
  scheme : string;
  username : JsValue;
  password : JsValue;
  credentials : JsValue
}.

Module Auth.

(** Reading a property of [client]; [None] is a client that is
    [undefined]. *)
Definition read {A} (client : option Client.t) (prop : string)
  (field : Client.t -> A) : Completion A :=
  match client with
  | Some c => Return (field c)
  | None => Throw (TypeError ("Cannot read property '" ++ prop ++ "' of undefined"))
  end.

(** [try { a } catch (error) { handler }]. *)
Definition try_catch {A} (a : Completion A) (handler : JsError -> Completion A)
  : Completion A :=
  match a with
  | Return x => Return x
  | Throw e => handler e
  end.

Definition app (client : option Client.t) : Completion (option AuthInfo) :=
  match read client "appKey" Client.appKey with
  | Throw e => Throw e
  | Return key =>
      if negb (truthy key) then Throw (Error "Missing client credentials")
      else
        match read client "appSecret" Client.appSecret with
        | Throw e => Throw e
        | Return secret =>
            if negb (truthy secret) then Throw (Error "Missing client credentials")
            else Return (Some {| scheme := "Basic"; username := key;
                                 password := secret; credentials := JsUndefined |})
        end
  end.

Definition master (client : option Client.t) : Completion (option AuthInfo) :=
  match read client "appKey" Client.appKey with
  | Throw e => Throw e
  | Return key =>
      if negb (truthy key) then Throw (Error "Missing client credentials")
      else
        match read client "masterSecret" Client.masterSecret with
        | Throw e => Throw e
        | Return secret =>
            if negb (truthy secret) then Throw (Error "Missing client credentials")
            else Return (Some {| scheme := "Basic"; username := key;
                                 password := secret; credentials := JsUndefined |})
        end
  end.

Definition basic (client : option Client.t) : Completion (option AuthInfo) :=
  try_catch (master client) (fun _ => app client).

Definition none (client : option Client.t) : Completion (option AuthInfo) :=
  Return None.

Definition session (env : Env) (client : option Client.t)
  : Completion (option AuthInfo) :=
  match read client "activeUser" Client.activeUser with
  | Throw e => Throw e
  | Return activeUser =>
      if negb (truthy activeUser) then
        Throw (NoActiveUserError
          "There is not an active user. Please login a user and retry the request.")
      else
        match member activeUser (kmdAttribute env) with
        | inr e => Throw e
        | inl kmd =>
            match member kmd "authtoken" with
            | inr e => Throw e
            | inl token =>
                Return (Some {| scheme := "Kinvey"; username := JsUndefined;
                                password := JsUndefined; credentials := token |})
            end
        end
  end.

Definition all (env : Env) (client : option Client.t)
  : Completion (option AuthInfo) :=
  try_catch (session env client) (fun _ => basic client).

End Auth.

(** ** Base64 of a buffer *)

Definition base64_alphabet : string :=
  "ABCDEFGHIJKLMNOPQRSTUVWXYZabcdefghijklmnopqrstuvwxyz0123456789+/".

Definition base64_digit (n : nat) : string :=
  match String.get n base64_alphabet with
  | Some c => String.String c EmptyString
  | None => "="
  end.

Fixpoint base64_bytes (bytes : list nat) : string :=
  match bytes with
  | [] => EmptyString
  | [a] =>
      base64_digit (Nat.div a 4) ++ base64_digit (Nat.modulo a 4 * 16) ++ "=="
  | [a; b] =>
      base64_digit (Nat.div a 4)
      ++ base64_digit (Nat.modulo a 4 * 16 + Nat.div b 16)
      ++ base64_digit (Nat.modulo b 16 * 4) ++ "="
  | a :: b :: c :: r =>
      base64_digit (Nat.div a 4)
      ++ base64_digit (Nat.modulo a 4 * 16 + Nat.div b 16)
      ++ base64_digit (Nat.modulo b 16 * 4 + Nat.div c 64)
      ++ base64_digit (Nat.modulo c 64)
      ++ base64_bytes r
  end.

Fixpoint buffer_of (s : string) : list nat :=
  match s with
  | EmptyString => []
  | String.String c r => nat_of_ascii c :: buffer_of r
  end.

(** [new Buffer(s).toString('base64')]. *)
Definition base64 (s : string) : string := base64_bytes (buffer_of s).

(** ** class RequestConfig *)

Record RequestConfig : Type := {
  configMethod : string;
  configHeaders : Headers;
  configUrl : JsValue;
  configBody : JsValue;
  configTimeout : JsValue;
  configFollowRedirect : bool;
  configNoCache : bool
}.

(** What a caller assigns to [headers]: a [Headers] instance or data. *)
Inductive HeadersArg : Type :=
| HeadersInstance (h : Headers)
| HeadersData (v : JsValue).

Definition RequestMethod : list string := ["GET"; "POST"; "PATCH"; "PUT"; "DELETE"].

Definition RequestConfig_get_method : Method RequestConfig string :=
  fun c => (Return (configMethod c), c).

Definition RequestConfig_set_method (method : JsValue) : Method RequestConfig unit :=
  fun c =>
    let method := toUpperCase (name_string method) in
    if existsb (String.eqb method) RequestMethod then
      (Return tt,
       {| configMethod := method; configHeaders := configHeaders c;
          configUrl := configUrl c; configBody := configBody c;
          configTimeout := configTimeout c;
          configFollowRedirect := configFollowRedirect c;
          configNoCache := configNoCache c |})
    else
      (Throw (Error
         "Invalid request method. Only GET, POST, PATCH, PUT, and DELETE are allowed."),
       c).

Definition RequestConfig_get_headers : Method RequestConfig Headers :=
  fun c => (Return (configHeaders c), c).

Definition store_headers (h : Headers) (c : RequestConfig) : RequestConfig :=
  {| configMethod := configMethod c; configHeaders := h;
     configUrl := configUrl c; configBody := configBody c;
     configTimeout := configTimeout c;
     configFollowRedirect := configFollowRedirect c;
     configNoCache := configNoCache c |}.

Definition RequestConfig_set_headers (arg : HeadersArg) : Method RequestConfig unit :=
  fun c =>
    match arg with
    | HeadersInstance h => (Return tt, store_headers h c)
    | HeadersData v =>
        match Headers_new (result_toJSON v) with
        | Return h => (Return tt, store_headers h c)
        | Throw e => (Throw e, c)
        end
    end.

(** A method of the header object the config holds, called through the
    config: the object is mutated in place. *)
Definition on_headers {A} (m : Method Headers A) : Method RequestConfig A :=
  fun c =>
    let '(r, h) := m (configHeaders c) in (r, store_headers h c).

Section Environment.

Variable env : Env.

(** [token] is [Math.random().toString(36).substr(2)] of this read. *)
Definition RequestConfig_get_url (token : string) : Method RequestConfig JsValue :=
  fun c =>
    if configNoCache c then
      (Return (JsString (appendQuery env (configUrl c)
                           (qs_stringify env [("_", JsString token)]))), c)
    else (Return (configUrl c), c).

Definition RequestConfig_set_url (urlString : JsValue) : Method RequestConfig unit :=
  fun c =>
    (Return tt,
     {| configMethod := configMethod c; configHeaders := configHeaders c;
        configUrl := urlString; configBody := configBody c;
        configTimeout := configTimeout c;
        configFollowRedirect := configFollowRedirect c;
        configNoCache := configNoCache c |}).

Definition RequestConfig_get_body : Method RequestConfig JsValue :=
  fun c => (Return (configBody c), c).

Definition RequestConfig_set_body (body : JsValue) : Method RequestConfig unit :=
  fun c =>
    (Return tt,
     {| configMethod := configMethod c; configHeaders := configHeaders c;
        configUrl := configUrl c; configBody := body;
        configTimeout := configTimeout c;
        configFollowRedirect := configFollowRedirect c;
        configNoCache := configNoCache c |}).

Definition RequestConfig_set_timeout (timeout : JsValue) : Method RequestConfig unit :=
  fun c =>
    (Return tt,
     {| configMethod := configMethod c; configHeaders := configHeaders c;
        configUrl := configUrl c; configBody := configBody c;
        configTimeout := if isNumber timeout then timeout else defaultTimeout env;
        configFollowRedirect := configFollowRedirect c;
        configNoCache := configNoCache c |}).

Definition RequestConfig_set_followRedirect (followRedirect : JsValue)
  : Method RequestConfig unit :=
  fun c =>
    (Return tt,
     {| configMethod := configMethod c; configHeaders := configHeaders c;
        configUrl := configUrl c; configBody := configBody c;
        configTimeout := configTimeout c;
        configFollowRedirect := truthy followRedirect;
        configNoCache := configNoCache c |}).

Definition RequestConfig_set_noCache (noCache : JsValue) : Method RequestConfig unit :=
  fun c =>
    (Return tt,
     {| configMethod := configMethod c; configHeaders := configHeaders c;
        configUrl := configUrl c; configBody := configBody c;
        configTimeout := configTimeout c;
        configFollowRedirect := configFollowRedirect c;
        configNoCache := truthy noCache |}).

(** [assign(defaults, options)[k]] for options given as data. *)
Definition option_or (options : JsValue) (k : string) (default : JsValue) : JsValue :=
  match options with
  | JsObject o => if has_key k o then lookup k o else default
  | _ => default
  end.

(** [new RequestConfig(options)] for an instance of the base class, options
    given as data.  The fields of the object under construction are all
    assigned before the constructor returns. *)
Definition RequestConfig_new (options : JsValue) : Completion RequestConfig :=
  let blank :=
    {| configMethod := EmptyString; configHeaders := {| headers := None |};
       configUrl := JsUndefined; configBody := JsUndefined;
       configTimeout := JsUndefined; configFollowRedirect := false;
       configNoCache := false |} in
  let headersArg :=
    match options with
    | JsObject o =>
        if has_key "headers" o then HeadersData (lookup "headers" o)
        else HeadersInstance {| headers := None |}
    | _ => HeadersInstance {| headers := None |}
    end in
  let body :=
    RequestConfig_set_method (option_or options "method" (JsString "GET")) ;;;
    RequestConfig_set_headers headersArg ;;;
    RequestConfig_set_url (option_or options "url" (JsString EmptyString)) ;;;
    RequestConfig_set_body (option_or options "body" JsNull) ;;;
    RequestConfig_set_timeout (option_or options "timeout" (defaultTimeout env)) ;;;
    RequestConfig_set_followRedirect (option_or options "followRedirect" (JsBool true)) ;;;
    RequestConfig_set_noCache (option_or options "noCache" (JsBool false)) ;;;
    headers <- RequestConfig_get_headers ;;
    (if negb (Headers_has (JsString "accept") headers)
     then on_headers (Headers_set (JsString "accept")
                        (JsString "application/json; charset=utf-8"))
     else ret tt) in
  match body blank with
  | (Return _, c) => Return c
  | (Throw e, _) => Throw e
  end.

End Environment.

(** ** class KinveyRequestConfig *)

(** A query object, as far as the request layer is concerned: what its
    [toQueryString()] returns. *)
Record Query : Type := { toQueryString : list (string * JsValue) }.

Record KinveyRequestConfig : Type := {
  super : RequestConfig;
  authType : JsValue;
  query : option Query;
  configOnline : bool;
  configCacheEnabled : bool;
  configApiVersion : JsValue;
  (** a plain mapping of custom request properties *)
  configProperties : list (string * JsValue);
  configAppVersion : JsValue;
  client : option Client.t;
  appKey : JsValue;
  collection : JsValue;
  entityId : JsValue
}.

Definition store_super (s : RequestConfig) (c : KinveyRequestConfig)
  : KinveyRequestConfig :=
  {| super := s; authType := authType c; query := query c;
     configOnline := configOnline c; configCacheEnabled := configCacheEnabled c;
     configApiVersion := configApiVersion c;
     configProperties := configProperties c;
     configAppVersion := configAppVersion c; client := client c;
     appKey := appKey c; collection := collection c; entityId := entityId c |}.

(** A method of the base class run on the derived instance. *)
Definition on_super {A} (m : Method RequestConfig A) : Method KinveyRequestConfig A :=
  fun c => let '(r, s) := m (super c) in (r, store_super s c).

(** Modelled from the spec: [byteCount] of [../utils/string], which is not
    among the sources; the spec has the size of the custom properties
    measured as the encoded byte count of the serialized form, not its
    character count.  For strings of code units below 128 every character
    is one byte. *)
Definition byteCount (s : string) : Z := Z.of_nat (String.length s).

(** [JSON.stringify(this.properties)].  When a [toJSON] member of the
    properties makes it [undefined], the text measured is the empty one:
    [byteCount], as modelled above, has nothing to count. *)
Definition JSON_stringify_object (o : list (string * JsValue)) : string :=
  match JSON_stringify (JsObject o) with
  | Some s => s
  | None => EmptyString
  end.

(** [byteCount(JSON.stringify(this.properties))]. *)
Definition properties_bytes (c : KinveyRequestConfig) : Z :=
  byteCount (JSON_stringify_object (configProperties c)).

Definition store_properties (p : list (string * JsValue)) (c : KinveyRequestConfig)
  : KinveyRequestConfig :=
  {| super := super c; authType := authType c; query := query c;
     configOnline := configOnline c; configCacheEnabled := configCacheEnabled c;
     configApiVersion := configApiVersion c;
     configProperties := p;
     configAppVersion := configAppVersion c; client := client c;
     appKey := appKey c; collection := collection c; entityId := entityId c |}.

Definition store_appVersion (v : JsValue) (c : KinveyRequestConfig)
  : KinveyRequestConfig :=
  {| super := super c; authType := authType c; query := query c;
     configOnline := configOnline c; configCacheEnabled := configCacheEnabled c;
     configApiVersion := configApiVersion c;
     configProperties := configProperties c;
     configAppVersion := v; client := client c;
     appKey := appKey c; collection := collection c; entityId := entityId c |}.

Definition KinveyRequestConfig_set_properties (p : list (string * JsValue))
  : Method KinveyRequestConfig unit :=
  fun c => (Return tt, store_properties p c).

Definition KinveyRequestConfig_get_appVersion : Method KinveyRequestConfig JsValue :=
  fun c => (Return (configAppVersion c), c).

(** The first statement of [get headers()]: the app-version header is set
    from [appVersion], or removed when [appVersion] is falsy. *)
Definition refresh_appVersion_header : Method KinveyRequestConfig unit :=
  appVersion <- KinveyRequestConfig_get_appVersion ;;
  if truthy appVersion
  then on_super (on_headers
         (Headers_set (JsString "X-Kinvey-Client-App-Version") appVersion))
  else on_super (on_headers
         (Headers_remove (JsString "X-Kinvey-Client-App-Version"))).

(** [set appVersion(args)]; [args] is the array assigned.
    [Array.prototype.slice.call(args, 1)] is its tail. *)
Definition KinveyRequestConfig_set_appVersion (args : list JsValue)
  : Method KinveyRequestConfig unit :=
  fun c =>
    let version := tl args in
    let major := nth 0 args JsUndefined in
    let minor := nth 1 version JsUndefined in
    let patch := nth 2 version JsUndefined in
    let appVersion := EmptyString in
    let appVersion := if truthy major then trim (String major) else appVersion in
    let appVersion := if truthy minor then trim ("." ++ String minor) else appVersion in
    let appVersion := if truthy patch then trim ("." ++ String patch) else appVersion in
    (Return tt, store_appVersion (JsString appVersion) c).

Section Environment.

Variable env : Env.

(** The error [get headers()] throws on custom properties of [n] bytes. *)
Definition too_large (n : Z) : JsError :=
  Error ("The custom properties are " ++ number_to_string n ++ " bytes."
         ++ "It must be less then "
         ++ number_to_string (customPropertiesMaxBytesAllowed env) ++ " bytes.").

(** [get headers()].  The getter reads [this.headers] in its last statement,
    which is a call of the getter itself; [stack] is the number of further
    calls the engine's call stack admits.  The body has no [return]: a call
    that completes yields [undefined] ([None]). *)
Fixpoint KinveyRequestConfig_get_headers (stack : nat)
  : Method KinveyRequestConfig (option Headers) :=
  match stack with
  | O => throw (RangeError "Maximum call stack size exceeded")
  | S stack' =>
      headers <- on_super RequestConfig_get_headers ;;
      refresh_appVersion_header ;;;
      fun c =>
        let customPropertiesHeader := JSON_stringify_object (configProperties c) in
        let customPropertiesByteCount := byteCount customPropertiesHeader in
        if customPropertiesByteCount >=? customPropertiesMaxBytesAllowed env then
          (Throw (too_large customPropertiesByteCount), c)
        else
          (this_headers <- KinveyRequestConfig_get_headers stack' ;;
           match this_headers with
           | Some _ =>
               on_super (on_headers
                 (Headers_set (JsString "X-Kinvey-Custom-Request-Properties")
                    (JsString customPropertiesHeader))) ;;;
               ret None
           | None => throw (TypeError "Cannot read property 'set' of undefined")
           end) c
  end.

(** [set url(urlString)]. *)
Definition KinveyRequestConfig_set_url (urlString : JsValue)
  : Method KinveyRequestConfig unit :=
  on_super (RequestConfig_set_url urlString) ;;;
  fun c =>
    let '(appKey, collection, entityId) := pathSegments env urlString in
    (Return tt,
     {| super := super c; authType := authType c; query := query c;
        configOnline := configOnline c; configCacheEnabled := configCacheEnabled c;
        configApiVersion := configApiVersion c;
        configProperties := configProperties c;
        configAppVersion := configAppVersion c; client := client c;
        appKey := if truthy appKey then unescape env appKey else appKey;
        collection := if truthy collection then unescape env collection else collection;
        entityId := if truthy entityId then unescape env entityId else entityId |}).

Definition KinveyRequestConfig_set_headers (arg : HeadersArg)
  : Method KinveyRequestConfig unit :=
  on_super (RequestConfig_set_headers arg).

(** [get url()]; [token] as for the base class. *)
Definition KinveyRequestConfig_get_url (token : string)
  : Method KinveyRequestConfig JsValue :=
  urlString <- on_super (RequestConfig_get_url env token) ;;
  fun c =>
    let queryString :=
      match query c with
      | Some q => toQueryString q
      | None => []
      end in
    if isEmpty queryString then (Return urlString, c)
    else (Return (JsString (appendQuery env urlString (qs_stringify env queryString))), c).

End Environment.

(** ** class Request *)

(** The config a request wraps is an instance of [RequestConfig] or of its
    subclass; an accessor is dispatched on the class of the instance.  The
    [config] setter also keeps a falsy primitive (0, the empty string,
    [false]) it is given as the config. *)
Inductive Config : Type :=
| PlainConfig (c : RequestConfig)
| KinveyConfig (c : KinveyRequestConfig)
| PrimitiveConfig (v : JsValue).

(** [requestConfig] is [None] when the request holds [null] or [undefined]
    for a config. *)
Record Request : Type := {
  requestConfig : option Config;
  executing : bool
}.

(** What a caller assigns to [config]: an instance, or any other value. *)
Inductive ConfigArg : Type :=
| ConfigInstance (c : Config)
| ConfigData (v : JsValue).

(** A property of a primitive: a read yields [undefined]; a write throws,
    the module being strict code. *)
Definition read_undefined {A} (undefined : A) (v : JsValue) : Completion A :=
  Return undefined.

Definition write_refused (property : string) (v : JsValue) : Completion unit :=
  Throw (TypeError ("Cannot create property '" ++ property ++ "' on "
                    ++ typeof v ++ " '" ++ String v ++ "'")).

Definition plain {A} (primitive : JsValue -> Completion A)
  (m : Method RequestConfig A) : Method Config A :=
  fun cfg =>
    match cfg with
    | PlainConfig c => let '(r, c') := m c in (r, PlainConfig c')
    | KinveyConfig c => let '(r, c') := on_super m c in (r, KinveyConfig c')
    | PrimitiveConfig v => (primitive v, cfg)
    end.

Definition dispatch {A} (primitive : JsValue -> Completion A)
  (m : Method RequestConfig A) (k : Method KinveyRequestConfig A)
  : Method Config A :=
  fun cfg =>
    match cfg with
    | PlainConfig c => let '(r, c') := m c in (r, PlainConfig c')
    | KinveyConfig c => let '(r, c') := k c in (r, KinveyConfig c')
    | PrimitiveConfig v => (primitive v, cfg)
    end.

(** [this.config.m]: a member of the wrapped config. *)
Definition on_config {A} (member_name : string) (m : Method Config A)
  : Method Request A :=
  fun r =>
    match requestConfig r with
    | Some cfg =>
        let '(a, cfg') := m cfg in
        (a, {| requestConfig := Some cfg'; executing := executing r |})
    | None =>
        (Throw (TypeError ("Cannot read property '" ++ member_name ++ "' of null")), r)
    end.

Section Environment.

Variable env : Env.
(** Calls the engine's stack admits below a method of the request. *)
Variable stack : nat.
(** The cache-busting token of a read of [url]. *)
Variable token : string.

Definition Request_set_config (arg : ConfigArg) : Method Request unit :=
  fun r =>
    match arg with
    | ConfigInstance c =>
        (Return tt, {| requestConfig := Some c; executing := executing r |})
    | ConfigData v =>
        if truthy v then
          match RequestConfig_new env (result_toJSON v) with
          | Return c =>
              (Return tt,
               {| requestConfig := Some (PlainConfig c); executing := executing r |})
          | Throw e => (Throw e, r)
          end
        else
          match v with
          | JsUndefined | JsNull =>
              (Return tt, {| requestConfig := None; executing := executing r |})
          | _ =>
              (Return tt,
               {| requestConfig := Some (PrimitiveConfig v); executing := executing r |})
          end
    end.

Definition Request_get_method : Method Request JsValue :=
  on_config "method"
    (plain (read_undefined JsUndefined)
       (method <- RequestConfig_get_method ;; ret (JsString method))).

Definition Request_set_method (method : JsValue) : Method Request unit :=
  on_config "method" (plain (write_refused "method") (RequestConfig_set_method method)).

Definition Request_get_headers : Method Request (option Headers) :=
  on_config "headers"
    (dispatch (read_undefined None) (h <- RequestConfig_get_headers ;; ret (Some h))
              (KinveyRequestConfig_get_headers env stack)).

Definition Request_set_headers (arg : HeadersArg) : Method Request unit :=
  on_config "headers"
    (dispatch (write_refused "headers")
       (RequestConfig_set_headers arg) (KinveyRequestConfig_set_headers arg)).

Definition Request_get_url : Method Request JsValue :=
  on_config "url"
    (dispatch (read_undefined JsUndefined)
       (RequestConfig_get_url env token) (KinveyRequestConfig_get_url env token)).

Definition Request_set_url (urlString : JsValue) : Method Request unit :=
  on_config "url"
    (dispatch (write_refused "url")
       (RequestConfig_set_url urlString) (KinveyRequestConfig_set_url env urlString)).

Definition Request_get_body : Method Request JsValue :=
  on_config "body" (plain (read_undefined JsUndefined) RequestConfig_get_body).

Definition Request_set_body (body : JsValue) : Method Request unit :=
  on_config "body" (plain (write_refused "body") (RequestConfig_set_body body)).

Definition Request_get_data : Method Request JsValue := Request_get_body.

Definition Request_set_data (data : JsValue) : Method Request unit :=
  Request_set_body data.

Definition Request_isExecuting (r : Request) : bool := executing r.

(** [async execute()]: [Throw] is the rejection of the promise returned. *)
Definition Request_execute : Method Request unit :=
  fun r =>
    if Request_isExecuting r then
      (Throw (Error "Unable to execute the request. The request is already executing."), r)
    else
      (Return tt, {| requestConfig := requestConfig r; executing := true |}).

Definition Request_toJSON : Method Request JsValue :=
  method <- Request_get_method ;;
  headers <- Request_get_headers ;;
  match headers with
  | None => throw (TypeError "Cannot read property 'toJSON' of undefined")
  | Some h =>
      url <- Request_get_url ;;
      body <- Request_get_body ;;
      data <- Request_get_body ;;
      ret (JsObject [("method", method); ("headers", Headers_toJSON h);
                     ("url", url); ("body", body); ("data", data)])
  end.

(** The parameter default [config = new RequestConfig()], taken when the
    argument is [undefined]. *)
Definition default_config (arg : ConfigArg) : Completion ConfigArg :=
  match arg with
  | ConfigData JsUndefined =>
      match RequestConfig_new env JsUndefined with
      | Return c => Return (ConfigInstance (PlainConfig c))
      | Throw e => Throw e
      end
  | _ => Return arg
  end.

(** [new Request(config)]. *)
Definition Request_new (arg : ConfigArg) : Completion Request :=
  match default_config arg with
  | Throw e => Throw e
  | Return config =>
      match Request_set_config config {| requestConfig := None; executing := false |} with
      | (Return _, r) =>
          Return {| requestConfig := requestConfig r; executing := false |}
      | (Throw e, _) => Throw e
      end
  end.

(** ** class KinveyRequest *)

(** [KinveyRequest] declares no accessor named [authType], [client] or
    [query] and its constructor assigns none: a read of [this.authType],
    [this.client] or [this.query] finds the property a caller has put on the
    instance, and [undefined] on a new one. *)
Record KinveyRequest : Type := {
  request : Request;
  own_authType : JsValue;
  own_client : option Client.t;
  own_query : option Query
}.

Record Header : Type := { name : string; value : string }.

Definition on_request {A} (m : Method Request A) : Method KinveyRequest A :=
  fun k =>
    let '(a, r) := m (request k) in
    (a, {| request := r; own_authType := own_authType k;
           own_client := own_client k; own_query := own_query k |}).

(** [new KinveyRequest(config)]; the rack it creates plays no part here. *)
Definition KinveyRequest_new (arg : ConfigArg) : Completion KinveyRequest :=
  match Request_new arg with
  | Return r =>
      Return {| request := r; own_authType := JsUndefined;
                own_client := None; own_query := None |}
  | Throw e => Throw e
  end.

Definition is_AuthType (v : JsValue) (t : string) : bool :=
  match v with
  | JsString s => (s =? t)%string
  | _ => false
  end.

(** The [switch] of [get authorizationHeader()]. *)
Definition resolve_authInfo (authType : JsValue) (client : option Client.t)
  : Completion (option AuthInfo) :=
  if is_AuthType authType "All" then Auth.all env client
  else if is_AuthType authType "App" then Auth.app client
  else if is_AuthType authType "Basic" then Auth.basic client
  else if is_AuthType authType "Master" then Auth.master client
  else if is_AuthType authType "None" then Auth.none client
  else if is_AuthType authType "Session" then Auth.session env client
  else
    Auth.try_catch (Auth.session env client) (fun error =>
      Auth.try_catch (Auth.master client) (fun error2 => Throw error)).

Definition header_of (authInfo : option AuthInfo) : option Header :=
  match authInfo with
  | Some info =>
      let credentials := credentials info in
      let credentials :=
        if truthy (username info)
        then JsString (base64 (String (username info) ++ ":" ++ String (password info)))
        else credentials in
      Some {| name := "Authorization";
              value := scheme info ++ " " ++ String credentials |}
  | None => None
  end.

Definition KinveyRequest_authorizationHeader (k : KinveyRequest)
  : Completion (option Header) :=
  match resolve_authInfo (own_authType k) (own_client k) with
  | Return authInfo => Return (header_of authInfo)
  | Throw e => Throw e
  end.

(** [execute] calls [this.addHeader], which neither [KinveyRequest] nor
    [Request] declares. *)
Definition KinveyRequest_addHeader (header : Header) : Method KinveyRequest unit :=
  call_undeclared "this.addHeader".

Definition KinveyRequest_execute : Method KinveyRequest unit :=
  fun k =>
    match KinveyRequest_authorizationHeader k with
    | Throw e => (Throw e, k)
    | Return authorizationHeader =>
        ((match authorizationHeader with
          | Some h => KinveyRequest_addHeader h
          | None => ret tt
          end) ;;;
         on_request Request_execute) k
    end.

(** [get url()] of the request. *)
Definition KinveyRequest_get_url : Method KinveyRequest JsValue :=
  urlString <- on_request Request_get_url ;;
  fun k =>
    let queryString :=
      match own_query k with
      | Some q => toQueryString q
      | None => []
      end in
    if isEmpty queryString then (Return urlString, k)
    else (Return (JsString (appendQuery env urlString (qs_stringify env queryString))), k).

(** [toJSON()] of the request: [super.toJSON()] with [this] the derived
    instance, so [this.url] is the getter above; the second component is the
    [query] property added to the result. *)
Definition KinveyRequest_toJSON : Method KinveyRequest (JsValue * option Query) :=
  method <- on_request Request_get_method ;;
  headers <- on_request Request_get_headers ;;
  match headers with
  | None => throw (TypeError "Cannot read property 'toJSON' of undefined")
  | Some h =>
      url <- KinveyRequest_get_url ;;
      body <- on_request Request_get_body ;;
      data <- on_request Request_get_body ;;
      fun k =>
        (Return (JsObject [("method", method); ("headers", Headers_toJSON h);
                           ("url", url); ("body", body); ("data", data)],
                 own_query k), k)
  end.

(** [cancel] calls [super.cancel], which [Request] does not declare. *)
Definition KinveyRequest_cancel : Method KinveyRequest unit :=
  call_undeclared "(intermediate value).cancel".

End Environment.

(** ** Operations and reachable states *)

(** The mutating members of [Headers]. *)
Inductive HeadersOp : Type :=
| OpSet (name value : JsValue)
| OpAdd (header : JsValue)
| OpAddAll (arg : JsValue)
| OpRemove (name : JsValue)
| OpClear.

Definition Headers_run (op : HeadersOp) : Method Headers unit :=
  match op with
  | OpSet n v => Headers_set n v
  | OpAdd header => Headers_add header
  | OpAddAll arg => Headers_addAll arg
  | OpRemove n => Headers_remove n
  | OpClear => Headers_clear
  end.

(** The header maps the class can produce: a new one, changed by its own
    members (an operation that throws may have changed the map before). *)
Inductive Headers_reachable : Headers -> Prop :=
| reachable_new : Headers_reachable {| headers := None |}
| reachable_run (op : HeadersOp) (h : Headers) :
    Headers_reachable h -> Headers_reachable (snd (Headers_run op h)).

(** The members of [Request]; the value a getter returns is dropped, what
    is kept is how the call completes and the state it leaves. *)
Inductive RequestOp : Type :=
| OpSetConfig (arg : ConfigArg)
| OpGetMethod
| OpSetMethod (method : JsValue)
| OpGetHeaders
| OpSetHeaders (arg : HeadersArg)
| OpGetUrl
| OpSetUrl (urlString : JsValue)
| OpGetBody
| OpSetBody (body : JsValue)
| OpGetData
| OpSetData (data : JsValue)
| OpExecute
| OpToJSON.

Definition discard {S A} (m : Method S A) : Method S unit := m ;;; ret tt.

Definition Request_run (env : Env) (stack : nat) (token : string) (op : RequestOp)
  : Method Request unit :=
  match op with
  | OpSetConfig arg => Request_set_config env arg
  | OpGetMethod => discard Request_get_method
  | OpSetMethod m => Request_set_method m
  | OpGetHeaders => discard (Request_get_headers env stack)
  | OpSetHeaders arg => Request_set_headers arg
  | OpGetUrl => discard (Request_get_url env token)
  | OpSetUrl u => Request_set_url env u
  | OpGetBody => discard Request_get_body
  | OpSetBody b => Request_set_body b
  | OpGetData => discard Request_get_data
  | OpSetData d => Request_set_data d
  | OpExecute => Request_execute
  | OpToJSON => discard (Request_toJSON env stack token)
  end.

(** The members of [KinveyRequest]: those of [Request], three of them
    overridden ([execute], [url], [toJSON]), and [cancel]. *)
Inductive KinveyRequestOp : Type :=
| OpInherited (op : RequestOp)
| OpKinveyCancel.

Definition KinveyRequest_run (env : Env) (stack : nat) (token : string)
  (op : KinveyRequestOp) : Method KinveyRequest unit :=
  match op with
  | OpInherited OpExecute => KinveyRequest_execute env
  | OpInherited OpGetUrl => discard (KinveyRequest_get_url env token)
  | OpInherited OpToJSON => discard (KinveyRequest_toJSON env stack token)
  | OpInherited op => on_request (Request_run env stack token op)
  | OpKinveyCancel => KinveyRequest_cancel
  end.

(** ** A sample environment *)

(** The fallback constants of the module, with stand-ins for the imported
    functions that agree with them on a URL without a query and on a flat
    object of strings, numbers and booleans. *)
Definition unreserved (c : ascii) : bool :=
  let n := nat_of_ascii c in
  orb (orb (andb (Nat.leb 48 n) (Nat.leb n 57))
           (orb (andb (Nat.leb 65 n) (Nat.leb n 90)) (andb (Nat.leb 97 n) (Nat.leb n 122))))
      (orb (orb (Nat.eqb n 45) (Nat.eqb n 46)) (orb (Nat.eqb n 95) (Nat.eqb n 126))).

Definition upper_hex_digit (n : nat) : ascii :=
  if Nat.ltb n 10 then ascii_of_nat (48 + n) else ascii_of_nat (55 + n).

Fixpoint percent_encode (s : string) : string :=
  match s with
  | EmptyString => EmptyString
  | String.String c r =>
      (if unreserved c then String.String c EmptyString
       else "%" ++ String.String (upper_hex_digit (Nat.div (nat_of_ascii c) 16))
                     (String.String (upper_hex_digit (Nat.modulo (nat_of_ascii c) 16))
                        EmptyString))
      ++ percent_encode r
  end.

Definition sample_qs_stringify (o : list (string * JsValue)) : string :=
  join "&" (map (fun kv => percent_encode (fst kv) ++ "=" ++ percent_encode (String (snd kv))) o).

Definition sample_appendQuery (uri : JsValue) (q : string) : string :=
  if (q =? EmptyString)%string then String uri else String uri ++ "?" ++ q.

Definition sample_env : Env :=
  {| kmdAttribute := "_kmd";
     defaultTimeout := JsNumber 30;
     defaultApiVersion := JsNumber 4;
     customPropertiesMaxBytesAllowed := 2000;
     appendQuery := sample_appendQuery;
     qs_stringify := sample_qs_stringify;
     pathSegments := fun _ => (JsUndefined, JsUndefined, JsUndefined);
     unescape := fun v => v |}.

Fixpoint replicate (n : nat) (c : ascii) : string :=
  match n with
  | O => EmptyString
  | S m => String.String c (replicate m c)
  end.

Definition sample_config : RequestConfig :=
  {| configMethod := "GET";
     configHeaders :=
       {| headers := Some [("accept", JsString "application/json; charset=utf-8")] |};
     configUrl := JsString "https://x/y";
     configBody := JsNull;
     configTimeout := JsNumber 30;
     configFollowRedirect := true;
     configNoCache := false |}.

Definition sample_kinvey_config (properties : list (string * JsValue))
  (appVersion : JsValue) (q : option Query) : KinveyRequestConfig :=
  {| super := sample_config;
     authType := JsString "Master";
     query := q;
     configOnline := true;
     configCacheEnabled := true;
     configApiVersion := JsNumber 4;
     configProperties := properties;
     configAppVersion := appVersion;
     client := None;
     appKey := JsUndefined;
     collection := JsUndefined;
     entityId := JsUndefined |}.

Definition sample_client (user : JsValue) (master : JsValue) : Client.t :=
  {| Client.appKey := JsString "kid";
     Client.appSecret := JsUndefined;
     Client.masterSecret := master;
     Client.activeUser := user |}.

Definition sample_request (t : JsValue) (c : option Client.t) : KinveyRequest :=
  {| request := {| requestConfig := Some (KinveyConfig (sample_kinvey_config [] JsUndefined None));
                   executing := false |};
     own_authType := t;
     own_client := c;
     own_query := None |}.

(** The auth types the [switch] of [authorizationHeader] has a case for;
    any other value, [undefined] and 'Default' included, takes the default
    branch. *)
Definition named_AuthType (t : JsValue) : bool :=
  existsb (is_AuthType t) ["All"; "App"; "Basic"; "Master"; "None"; "Session"].

(** A method never resets a flag of its receiver that is set. *)
Definition never_resets {S A} (flag : S -> bool) (m : Method S A) : Prop :=
  forall s, flag s = true -> flag (snd (m s)) = true.

(** The config of a request, of either class. *)
Definition config_of (k : KinveyRequest) : option Config := requestConfig (request k).

(** ** Invariant of the header store *)

(** What [set] leaves in the store: a string that is not empty, or
    [undefined] when the value was one that [JSON.stringify] turns into
    [undefined]. *)
Definition nonempty_string (v : JsValue) : Prop :=
  exists s, v = JsString s /\ s <> EmptyString.

Definition stored_ok (v : JsValue) : Prop :=
  v = JsUndefined \/ nonempty_string v.


(** ** class Properties *)

(** The class has no constructor: [properties] is [undefined] ([None]) on a
    new instance, until [clear] assigns it. *)
Record Properties : Type := { properties : option (list (string * JsValue)) }.

(** [get] calls [this.toJSON], a member [Properties] does not declare (its
    members are get, set, remove, has, addProperties and clear). *)
Definition Properties_toJSON : Method Properties (list (string * JsValue)) :=
  call_undeclared "this.toJSON".

(** A property name given as any value is converted to a string. *)
Definition Properties_get (key : JsValue) : Method Properties JsValue :=
  properties <- Properties_toJSON ;;
  ret (if truthy key && has_key (String key) properties
       then lookup (String key) properties
       else JsUndefined).

Definition Properties_has (key : JsValue) : Method Properties bool :=
  v <- Properties_get key ;; ret (truthy v).

(** One step of the loop of [addProperties].  An assignment to [__proto__]
    creates no own property; the prototype of the store, which it may
    replace, is not part of the state. *)
Definition Properties_put (key : string) (value : JsValue) : Method Properties unit :=
  fun p =>
    if truthy value then
      match properties p with
      | Some o => (Return tt, {| properties := Some (assign key value o) |})
      | None =>
          (Throw (TypeError ("Cannot set property '" ++ key ++ "' of undefined")), p)
      end
    else
      match properties p with
      | Some o => (Return tt, {| properties := Some (delete key o) |})
      | None => (Throw (TypeError "Cannot convert undefined or null to object"), p)
      end.

Definition Properties_addProperties (arg : JsValue) : Method Properties unit :=
  match arg with
  | JsObject o =>
      forEach (map fst o) (fun key =>
        let value := lookup key o in
        Properties_put key value)
  | _ => throw (KinveyError "properties argument must be an object")
  end.

(** [set] builds a temporary object with the one property and hands it to
    [addProperties].  An assignment of an object or a function to
    [__proto__] makes it the prototype of the temporary object, which
    [isPlainObject] then refuses (the prototype is neither [null] nor
    [Object.prototype]); any other value assigned to [__proto__] leaves the
    temporary object plain and without a property of its own. *)
Definition Properties_set (key value : JsValue) : Method Properties unit :=
  if (String key =? "__proto__")%string then
    if isObject value
    then throw (KinveyError "properties argument must be an object")
    else Properties_addProperties (JsObject [])
  else
    let properties := assign (String key) value [] in
    Properties_addProperties (JsObject properties).

(** [properties.hasOwnProperty(key)]: the method of [Object.prototype],
    unless the store has an own property of that name; that property is
    called when it is a function and cannot be called otherwise. *)
Definition Properties_hasOwnProperty (o : list (string * JsValue)) (key : string)
  : Completion bool :=
  if has_key "hasOwnProperty" o then
    match lookup "hasOwnProperty" o with
    | JsFunction _ returns => Return (truthy returns)
    | _ => Throw (TypeError "properties.hasOwnProperty is not a function")
    end
  else Return (has_key key o).

Definition Properties_remove (key : JsValue) : Method Properties unit :=
  fun p =>
    if truthy key then
      match properties p with
      | None =>
          (Throw (TypeError "Cannot read property 'hasOwnProperty' of undefined"), p)
      | Some o =>
          match Properties_hasOwnProperty o (String key) with
          | Throw e => (Throw e, p)
          | Return true =>
              (Return tt, {| properties := Some (delete (String key) o) |})
          | Return false => (Return tt, p)
          end
      end
    else (Return tt, p).

Definition Properties_clear : Method Properties unit :=
  fun _ => (Return tt, {| properties := Some [] |}).

Inductive PropertiesOp : Type :=
| OpPropertiesGet (key : JsValue)
| OpPropertiesHas (key : JsValue)
| OpPropertiesSet (key value : JsValue)
| OpPropertiesRemove (key : JsValue)
| OpPropertiesAdd (arg : JsValue)
| OpPropertiesClear.

Definition Properties_run (op : PropertiesOp) : Method Properties unit :=
  match op with
  | OpPropertiesGet key => discard (Properties_get key)
  | OpPropertiesHas key => discard (Properties_has key)
  | OpPropertiesSet key value => Properties_set key value
  | OpPropertiesRemove key => Properties_remove key
  | OpPropertiesAdd arg => Properties_addProperties arg
  | OpPropertiesClear => Properties_clear
  end.

Inductive Properties_reachable : Properties -> Prop :=
| properties_new : Properties_reachable {| properties := None |}
| properties_run (op : PropertiesOp) (p : Properties) :
    Properties_reachable p -> Properties_reachable (snd (Properties_run op p)).

Definition properties_or_empty (p : Properties) : list (string * JsValue) :=
  match properties p with
  | Some o => o
  | None => []
  end.

(** ** Further notions for the properties below *)

(** The names of a store, and stores that list no name twice. *)
Definition keys (o : list (string * JsValue)) : list string := map fst o.

Definition keys_unique (o : list (string * JsValue)) : Prop := NoDup (keys o).

(** The value [get] finds for [n]: that of the first stored name equal to
    [n] up to case. *)
Fixpoint first_match (n : string) (o : list (string * JsValue)) : JsValue :=
  match o with
  | [] => JsUndefined
  | (k, v) :: r =>
      if (toLowerCase k =? toLowerCase n)%string then v else first_match n r
  end.

(** A string of code units below 128. *)
Fixpoint ascii_only (s : string) : bool :=
  match s with
  | EmptyString => true
  | String.String c r => Nat.ltb (nat_of_ascii c) 128 && ascii_only r
  end.

(** What [set] stores for a value. *)
Definition stored (value : JsValue) : JsValue :=
  if negb (isString value) then JSON_stringify_value value else value.

(** The setters of [RequestConfig]. *)
Inductive RequestConfigOp : Type :=
| OpConfigMethod (method : JsValue)
| OpConfigHeaders (arg : HeadersArg)
| OpConfigUrl (urlString : JsValue)
| OpConfigBody (body : JsValue)
| OpConfigData (data : JsValue)
| OpConfigTimeout (timeout : JsValue)
| OpConfigFollowRedirect (followRedirect : JsValue)
| OpConfigNoCache (noCache : JsValue).

Definition RequestConfig_run (env : Env) (op : RequestConfigOp)
  : Method RequestConfig unit :=
  match op with
  | OpConfigMethod m => RequestConfig_set_method m
  | OpConfigHeaders arg => RequestConfig_set_headers arg
  | OpConfigUrl u => RequestConfig_set_url u
  | OpConfigBody b => RequestConfig_set_body b
  | OpConfigData d => RequestConfig_set_body d
  | OpConfigTimeout t => RequestConfig_set_timeout env t
  | OpConfigFollowRedirect f => RequestConfig_set_followRedirect f
  | OpConfigNoCache n => RequestConfig_set_noCache n
  end.

(** The configs of the base class: constructed, then changed by setters. *)
Inductive RequestConfig_reachable (env : Env) : RequestConfig -> Prop :=
| config_new (options : JsValue) (c : RequestConfig) :
    RequestConfig_new env options = Return c -> RequestConfig_reachable env c
| config_run (op : RequestConfigOp) (c : RequestConfig) :
    RequestConfig_reachable env c ->
    RequestConfig_reachable env (snd (RequestConfig_run env op c)).

(** Two API configs that differ at most in the app-version header of the
    header store. *)
Definition app_version_name : string := "X-Kinvey-Client-App-Version".

Definition same_but_app_version (c c' : KinveyRequestConfig) : Prop :=
  (forall k, k <> app_version_name ->
     lookup k (headers_or_empty (configHeaders (super c')))
     = lookup k (headers_or_empty (configHeaders (super c))))
  /\ store_headers (configHeaders (super c)) (super c') = super c
  /\ store_super (super c) c' = c.

(** The members of [Request] that only read. *)
Definition reads (op : RequestOp) : bool :=
  match op with
  | OpGetMethod | OpGetHeaders | OpGetUrl | OpGetBody | OpGetData | OpToJSON => true
  | _ => false
  end.

(** The header the app or master strategy gives for a client: Basic with
    the base64 text of the client's app key and one of its two secrets. *)
Definition basic_header (c : Client.t) (h : Header) : Prop :=
  exists secret,
    (secret = Client.masterSecret c \/ secret = Client.appSecret c)
    /\ truthy (Client.appKey c) = true /\ truthy secret = true
    /\ value h = "Basic " ++ base64 (String (Client.appKey c) ++ ":" ++ String secret).

(** The header the session strategy gives for a client: Kinvey with the
    [authtoken] of the metadata block of the client's active user. *)
Definition session_header (env : Env) (c : Client.t) (h : Header) : Prop :=
  exists kmd token,
    truthy (Client.activeUser c) = true
    /\ member (Client.activeUser c) (kmdAttribute env) = inl kmd
    /\ member kmd "authtoken" = inl token
    /\ value h = "Kinvey " ++ String token.

(** A result of the app or master strategy, and one of the session
    strategy. *)
Definition basic_result (r : option AuthInfo) : Prop :=
  exists u p, r = Some {| scheme := "Basic"; username := u; password := p;
                          credentials := JsUndefined |}
              /\ truthy u = true /\ truthy p = true.

Definition session_result (r : option AuthInfo) : Prop :=
  exists t, r = Some {| scheme := "Kinvey"; username := JsUndefined;
                        password := JsUndefined; credentials := t |}.

(** The header map of a config just constructed. *)
Definition accept_only : Headers :=
  {| headers := Some [("accept", JsString "application/json; charset=utf-8")] |}.

(** The [headers] entry of the options of [new RequestConfig], the default
    included. *)
Definition headers_option (options : JsValue) : HeadersArg :=
  match options with
  | JsObject o =>
      if has_key "headers" o then HeadersData (lookup "headers" o)
      else HeadersInstance {| headers := None |}
  | _ => HeadersInstance {| headers := None |}
  end.

(** What [set timeout] stores. *)
Definition timeout_of (env : Env) (t : JsValue) : JsValue :=
  if isNumber t then t else defaultTimeout env.

(** The method and timeout of a config are well-formed. *)
Definition config_ok (env : Env) (c : RequestConfig) : Prop :=
  In (configMethod c) RequestMethod
  /\ (isNumber (configTimeout c) = true \/ configTimeout c = defaultTimeout env).

(** The members of [Request] that go through [this.config]. *)
Definition uses_config (op : RequestOp) : bool :=
  match op with
  | OpSetConfig _ | OpExecute => false
  | _ => true
  end.

(** The values a [Properties] store holds are truthy and its names are
    pairwise different. *)
Definition properties_ok (p : Properties) : Prop :=
  Forall (fun kv => truthy (snd kv) = true) (properties_or_empty p)
  /\ keys_unique (properties_or_empty p).

(** * Properties *)

(** ** The embedding on sample values *)

Example JSON_stringify_object_sample :
  JSON_stringify (JsObject [("a", JsNumber 1); ("b", JsString "x"); ("c", JsUndefined);
                            ("d", JsObject [("e", JsBool true); ("f", JsNull)])])
  = Some ("{" ++ quote "a" ++ ":1," ++ quote "b" ++ ":" ++ quote "x" ++ ","
          ++ quote "d" ++ ":{" ++ quote "e" ++ ":true," ++ quote "f" ++ ":null}}").
Proof. reflexivity. Qed.

Example JSON_stringify_function_sample :
  JSON_stringify (JsFunction "function () {}" JsNull) = None
  /\ JSON_stringify (JsObject [("a", JsFunction "function () {}" JsNull);
                               ("b", JsNumber 1)])
     = Some ("{" ++ quote "b" ++ ":1}")
  /\ JSON_stringify (JsObject [("toJSON", JsFunction "function () { return 2; }"
                                            (JsNumber 2))])
     = Some "2"
  /\ JSON_stringify (JsObject [("toJSON", JsFunction "function () {}" JsUndefined)])
     = None.
Proof. repeat split. Qed.

Example base64_sample :
  base64 "kid:secret" = "a2lkOnNlY3JldA==" /\ base64 "ab" = "YWI=" /\ base64 "abc" = "YWJj".
Proof. repeat split. Qed.

Example keys_order_sample :
  map fst (assign "b" JsNull (assign "2" JsNull (assign "10" JsNull
             (assign "a" JsNull []))))
  = ["2"; "10"; "a"; "b"].
Proof. reflexivity. Qed.

Example trim_sample : trim "  1.2 " = "1.2" /\ toUpperCase "patch" = "PATCH".
Proof. split; reflexivity. Qed.

Example RequestConfig_new_sample :
  RequestConfig_new sample_env (JsObject [("method", JsString "post")])
  = Return {| configMethod := "POST";
              configHeaders :=
                {| headers := Some [("accept", JsString "application/json; charset=utf-8")] |};
              configUrl := JsString EmptyString;
              configBody := JsNull;
              configTimeout := JsNumber 30;
              configFollowRedirect := true;
              configNoCache := false |}.
Proof. reflexivity. Qed.

(** ** Header maps *)

Section HeaderValues.

Lemma number_to_string_nonempty (n : Z) : number_to_string n <> EmptyString.
Proof.
  unfold number_to_string, NilZero.string_of_int.
  destruct (Z.to_int n) as [d | d]; [ | discriminate ].
  unfold NilZero.string_of_uint.
  destruct d; simpl; discriminate.
Qed.

Lemma append_nonempty (a b : string) : a <> EmptyString -> (a ++ b)%string <> EmptyString.
Proof. destruct a; [ congruence | simpl; discriminate ]. Qed.

Lemma truthy_string (s : string) : truthy (JsString s) = true -> s <> EmptyString.
Proof.
  simpl. intros H E. subst s. discriminate H.
Qed.

Lemma serialize_nonempty (own : bool) (v : JsValue) (t : string) :
  (own = false \/ isPlainObject v = false) ->
  JSON_serialize own v = Some t -> t <> EmptyString.
Proof.
  intros Hown.
  destruct v as [ | | [ | ] | n | s | o | src r ]; simpl; try discriminate;
    try (intros E; inversion E; subst; discriminate).
  - intros E. inversion E. apply number_to_string_nonempty.
  - destruct Hown as [F | F]; [ subst own | discriminate F ].
    cbv iota. intros E. inversion E. discriminate.
Qed.

Lemma stringify_nonempty (v : JsValue) (t : string) :
  JSON_stringify v = Some t -> t <> EmptyString.
Proof.
  unfold JSON_stringify.
  destruct v as [ | | b | n | s | o | src r ];
    try (apply serialize_nonempty; right; reflexivity).
  simpl.
  match goal with
  | |- match ?called with _ => _ end = _ -> _ =>
      assert (C : called = None \/ exists w, called = Some (JSON_serialize false w))
  end.
  { induction o as [ | [k w] rest IH ]; [ now left | ].
    destruct (k =? "toJSON")%string; [ | exact IH ].
    destruct w; try (now left). right. eexists. reflexivity. }
  destruct C as [C | (w & C)]; rewrite C.
  - intros E. inversion E. discriminate.
  - apply serialize_nonempty. now left.
Qed.

Lemma stored_value_ok (value : JsValue) :
  truthy value = true ->
  stored_ok (if negb (isString value) then JSON_stringify_value value else value).
Proof.
  intros T. destruct (isString value) eqn:S; simpl.
  - destruct value; try discriminate S. right. exists s.
    split; [ reflexivity | now apply truthy_string ].
  - unfold JSON_stringify_value.
    destruct (JSON_stringify value) as [t | ] eqn:J; [ | now left ].
    right. exists t. split; [ reflexivity | exact (stringify_nonempty value t J) ].
Qed.







Lemma setHeader_keeps n v h : snd (Headers_setHeader n v h) = h.
Proof. reflexivity. Qed.

Lemma addAll_keeps arg h : snd (Headers_addAll arg h) = h.
Proof.
  destruct arg; try reflexivity.
  simpl. destruct props as [ | [k v] r ]; reflexivity.
Qed.

Lemma add_keeps header h : snd (Headers_add header h) = h.
Proof.
  unfold Headers_add.
  destruct header; simpl; try reflexivity.
Qed.




End HeaderValues.




(** C3.  [get] and [has] compare names after lower-casing; [set] and
    [remove] use the name as given.  After [set('accept', 'a')] and
    [set('Accept', 'b')] the store holds both names, [get] of either
    spelling returns the older value, and [remove('ACCEPT')] removes
    nothing. *)
Theorem Headers_set_keeps_other_spelling :
  let h1 := snd (Headers_set (JsString "accept") (JsString "a") {| headers := None |}) in
  let h2 := snd (Headers_set (JsString "Accept") (JsString "b") h1) in
  let h3 := snd (Headers_remove (JsString "ACCEPT") h2) in
  headers h2 = Some [("accept", JsString "a"); ("Accept", JsString "b")]
  /\ Headers_get (JsString "accept") h2 = JsString "a"
  /\ Headers_get (JsString "Accept") h2 = JsString "a"
  /\ h3 = h2
  /\ Headers_has (JsString "ACCEPT") h3 = true.
Proof. repeat split. Qed.

Lemma forEach_setHeader_throws (name : string) (names : list string)
  (value_of : string -> JsValue) (h : Headers) :
  forEach (name :: names) (fun n => Headers_setHeader (JsString n) (value_of n)) h =
  (Throw (TypeError "this.setHeader is not a function"), h).
Proof. reflexivity. Qed.

(** C4.  [addAll] throws on an argument that is not a plain object, does
    nothing on an empty object, and on an object with at least one entry
    throws a TypeError at the first entry, the map left as it was: no entry
    is set, and [get] of the entry's name returns what it returned before. *)
Theorem Headers_addAll_sets_nothing (h : Headers) :
  (forall arg, isPlainObject arg = false ->
     Headers_addAll arg h = (Throw (Error "Headers argument must be an object."), h))
  /\ Headers_addAll (JsObject []) h = (Return tt, h)
  /\ (forall k v o,
        Headers_addAll (JsObject ((k, v) :: o)) h =
        (Throw (TypeError "this.setHeader is not a function"), h))
  /\ Headers_new (JsObject [("a", JsString "b")]) =
     Throw (TypeError "this.setHeader is not a function")
  /\ Headers_get (JsString "a")
       (snd (Headers_addAll (JsObject [("a", JsString "b")]) {| headers := None |}))
     = JsUndefined.
Proof.
  split; [ | split; [ | split; [ | split ] ] ].
  - intros arg P. destruct arg; try reflexivity. discriminate P.
  - reflexivity.
  - intros k v o. unfold Headers_addAll. simpl map.
    apply forEach_setHeader_throws.
  - reflexivity.
  - reflexivity.
Qed.

(** ** Derived headers of the API config *)

Section DerivedHeaders.

Variable env : Env.

Lemma refresh_returns c :
  exists c', refresh_appVersion_header c = (Return tt, c')
             /\ configProperties c' = configProperties c
             /\ configAppVersion c' = configAppVersion c.
Proof.
  unfold refresh_appVersion_header, bind, KinveyRequestConfig_get_appVersion.
  destruct (truthy (configAppVersion c)) eqn:T.
  - unfold on_super, on_headers, Headers_set. rewrite T. simpl.
    eexists. repeat split.
  - unfold on_super, on_headers, Headers_remove. simpl.
    eexists. repeat split.
Qed.

Lemma get_headers_step stack c :
  exists c', properties_bytes c' = properties_bytes c /\
    KinveyRequestConfig_get_headers env (S stack) c =
    if properties_bytes c >=? customPropertiesMaxBytesAllowed env
    then (Throw (too_large env (properties_bytes c)), c')
    else
      match KinveyRequestConfig_get_headers env stack c' with
      | (Return (Some _), c'') =>
          (on_super (on_headers
             (Headers_set (JsString "X-Kinvey-Custom-Request-Properties")
                (JsString (JSON_stringify_object (configProperties c))))) ;;;
           ret None) c''
      | (Return None, c'') =>
          (Throw (TypeError "Cannot read property 'set' of undefined"), c'')
      | (Throw e, c'') => (Throw e, c'')
      end.
Proof.
  destruct (refresh_returns c) as (c' & R & P & V).
  exists c'. split; [ unfold properties_bytes; now rewrite P | ].
  simpl. unfold bind at 1. unfold on_super at 1. simpl.
  replace (store_super (super c) c) with c by now destruct c.
  unfold bind at 1. rewrite R.
  unfold properties_bytes. rewrite P.
  destruct (_ >=? _); [ reflexivity | ].
  unfold bind at 1.
  destruct (KinveyRequestConfig_get_headers env stack c') as [[[h | ] | e] c''];
    reflexivity.
Qed.

Lemma get_headers_throws stack : forall c,
  fst (KinveyRequestConfig_get_headers env stack c)
    = Throw (RangeError "Maximum call stack size exceeded")
  \/ fst (KinveyRequestConfig_get_headers env stack c)
    = Throw (too_large env (properties_bytes c)).
Proof.
  induction stack as [ | stack IH ]; intros c.
  - left. reflexivity.
  - destruct (get_headers_step stack c) as (c' & P & E). rewrite E.
    destruct (_ >=? _); [ right; reflexivity | ].
    specialize (IH c'). rewrite P in IH.
    destruct (KinveyRequestConfig_get_headers env stack c') as [[[h | ] | e] c''];
      simpl in IH; destruct IH as [H | H]; try discriminate H;
      inversion H; subst; simpl; auto.
Qed.

Lemma get_headers_overflows stack : forall c,
  properties_bytes c < customPropertiesMaxBytesAllowed env ->
  fst (KinveyRequestConfig_get_headers env stack c)
    = Throw (RangeError "Maximum call stack size exceeded").
Proof.
  induction stack as [ | stack IH ]; intros c Hlt.
  - reflexivity.
  - destruct (get_headers_step stack c) as (c' & P & E). rewrite E.
    destruct (Z.geb_spec (properties_bytes c) (customPropertiesMaxBytesAllowed env)) as [G | G];
      [ lia | ].
    rewrite <- P in Hlt. specialize (IH c' Hlt).
    destruct (KinveyRequestConfig_get_headers env stack c') as [[[h | ] | e] c''];
      simpl in IH; try discriminate IH.
    exact IH.
Qed.

End DerivedHeaders.

(** C5.  A read of [headers] on an API config never returns a header map:
    whatever the app version, the properties and the depth of stack left,
    the getter ends in a thrown error, the too-large error of the
    properties or the stack overflow of its own unbounded recursion. *)
Theorem KinveyRequestConfig_headers_never_returns (env : Env) (stack : nat)
  (c : KinveyRequestConfig) :
  (forall r, fst (KinveyRequestConfig_get_headers env stack c) <> Return r)
  /\ (fst (KinveyRequestConfig_get_headers env stack c)
        = Throw (RangeError "Maximum call stack size exceeded")
      \/ fst (KinveyRequestConfig_get_headers env stack c)
        = Throw (too_large env (properties_bytes c))).
Proof.
  pose proof (get_headers_throws env stack c) as H.
  split; [ | exact H ].
  intros r E. destruct H as [H | H]; rewrite H in E; discriminate E.
Qed.

(** C7.  When the serialized properties have at least as many bytes as the
    cap, a read of [headers] throws the too-large error; when they have
    fewer, one fewer included, the read does not succeed either: it
    overflows the stack. *)
Theorem KinveyRequestConfig_headers_under_cap_overflows (env : Env) (stack : nat)
  (c : KinveyRequestConfig) :
  (customPropertiesMaxBytesAllowed env <= properties_bytes c ->
   fst (KinveyRequestConfig_get_headers env (S stack) c)
     = Throw (too_large env (properties_bytes c)))
  /\ (properties_bytes c < customPropertiesMaxBytesAllowed env ->
      fst (KinveyRequestConfig_get_headers env stack c)
        = Throw (RangeError "Maximum call stack size exceeded")).
Proof.
  split.
  - intros Hge. destruct (get_headers_step env stack c) as (c' & _ & E). rewrite E.
    destruct (Z.geb_spec (properties_bytes c) (customPropertiesMaxBytesAllowed env));
      [ reflexivity | lia ].
  - apply get_headers_overflows.
Qed.

Lemma KinveyRequestConfig_headers_under_cap_overflows_witness :
  let c := sample_kinvey_config [("p", JsString (replicate 1991 "a"))] JsUndefined None in
  properties_bytes c = 1999
  /\ fst (KinveyRequestConfig_get_headers sample_env 64 c)
     = Throw (RangeError "Maximum call stack size exceeded").
Proof.
  split; [ vm_compute; reflexivity | ].
  apply (KinveyRequestConfig_headers_under_cap_overflows sample_env 64
           (sample_kinvey_config [("p", JsString (replicate 1991 "a"))] JsUndefined None)).
  vm_compute. reflexivity.
Defined.

(** C6.  Assigning [[1, 2, 3]] to [appVersion] stores ".3": the minor and
    patch segments are read one place too far in the sliced array and each
    assignment replaces the string built so far.  Assigning [[1]] stores
    "1". *)
Theorem KinveyRequestConfig_appVersion_segments (c : KinveyRequestConfig) :
  configAppVersion
    (snd (KinveyRequestConfig_set_appVersion [JsNumber 1; JsNumber 2; JsNumber 3] c))
  = JsString ".3"
  /\ configAppVersion (snd (KinveyRequestConfig_set_appVersion [JsNumber 1] c))
     = JsString "1".
Proof. split; reflexivity. Qed.

(** ** The url of the API config *)

(** C8.  A read of [url] on an API config returns the stored URL, cache-busted
    first when [noCache] is set, with the query string appended when the
    query object yields a non-empty one; with [noCache] false that is the
    stored URL with the query string appended.  The read leaves the config,
    and so the stored URL, as it was. *)
Theorem KinveyRequestConfig_url_composition (env : Env) (token : string)
  (c : KinveyRequestConfig) :
  let raw := configUrl (super c) in
  let busted :=
    if configNoCache (super c)
    then JsString (appendQuery env raw (qs_stringify env [("_", JsString token)]))
    else raw in
  let queryString :=
    match query c with
    | Some q => toQueryString q
    | None => []
    end in
  KinveyRequestConfig_get_url env token c =
    (Return (if isEmpty queryString then busted
             else JsString (appendQuery env busted (qs_stringify env queryString))), c)
  /\ (configNoCache (super c) = false ->
      fst (KinveyRequestConfig_get_url env token c) =
      Return (if isEmpty queryString then raw
              else JsString (appendQuery env raw (qs_stringify env queryString))))
  /\ configUrl (super (snd (KinveyRequestConfig_get_url env token c))) = raw.
Proof.
  assert (E : KinveyRequestConfig_get_url env token c =
    (Return (if isEmpty (match query c with Some q => toQueryString q | None => [] end)
             then (if configNoCache (super c)
                   then JsString (appendQuery env (configUrl (super c))
                                    (qs_stringify env [("_", JsString token)]))
                   else configUrl (super c))
             else JsString (appendQuery env
                    (if configNoCache (super c)
                     then JsString (appendQuery env (configUrl (super c))
                                      (qs_stringify env [("_", JsString token)]))
                     else configUrl (super c))
                    (qs_stringify env
                       (match query c with Some q => toQueryString q | None => [] end)))),
     c)).
  { unfold KinveyRequestConfig_get_url, bind, on_super, RequestConfig_get_url.
    destruct c as [s a q o ce av p v cl k co en]. simpl.
    destruct s as [m h u b t fr nc]. simpl.
    destruct nc; simpl; destruct q as [[qs] | ]; simpl;
      try destruct qs; reflexivity. }
  cbv zeta. split; [ exact E | split ].
  - intros NC. rewrite E. rewrite NC. reflexivity.
  - rewrite E. reflexivity.
Qed.

Lemma KinveyRequestConfig_url_composition_witness :
  fst (KinveyRequestConfig_get_url sample_env "t"
         (sample_kinvey_config [] JsUndefined
            (Some {| toQueryString := [("a", JsNumber 1)] |})))
  = Return (JsString "https://x/y?a=1").
Proof.
  rewrite (proj1 (proj2 (KinveyRequestConfig_url_composition sample_env "t"
            (sample_kinvey_config [] JsUndefined
               (Some {| toQueryString := [("a", JsNumber 1)] |})))) eq_refl).
  reflexivity.
Defined.

(** ** The executing flag *)

Section Executing.

Variable env : Env.
Variable stack : nat.
Variable token : string.

Lemma never_resets_ret {S A} (flag : S -> bool) (a : A) : never_resets flag (ret a).
Proof. intros s H. exact H. Qed.

Lemma never_resets_throw {S A} (flag : S -> bool) (e : JsError) :
  never_resets flag (@throw S A e).
Proof. intros s H. exact H. Qed.

Lemma never_resets_bind {S A B} (flag : S -> bool) (m : Method S A) (k : A -> Method S B) :
  never_resets flag m -> (forall a, never_resets flag (k a)) ->
  never_resets flag (bind m k).
Proof.
  intros Hm Hk s H. unfold bind.
  specialize (Hm s H). destruct (m s) as [[a | e] s']; simpl in *.
  - now apply Hk.
  - exact Hm.
Qed.

Lemma never_resets_on_config {A} (n : string) (m : Method Config A) :
  never_resets executing (on_config n m).
Proof.
  intros r H. unfold on_config.
  destruct (requestConfig r) as [cfg | ]; [ | exact H ].
  destruct (m cfg) as [a cfg']. exact H.
Qed.

Lemma never_resets_on_request {A} (m : Method Request A) :
  never_resets executing m ->
  never_resets (fun k => executing (request k)) (on_request m).
Proof.
  intros Hm k H. unfold on_request.
  specialize (Hm (request k) H). destruct (m (request k)) as [a r]. exact Hm.
Qed.

Lemma never_resets_execute : never_resets executing Request_execute.
Proof.
  intros r H. unfold Request_execute, Request_isExecuting. rewrite H. exact H.
Qed.

Lemma never_resets_set_config arg : never_resets executing (Request_set_config env arg).
Proof.
  intros r H. unfold Request_set_config.
  destruct arg as [c | v]; [ exact H | ].
  destruct (truthy v); [ | destruct v; exact H ].
  destruct (RequestConfig_new env (result_toJSON v)); exact H.
Qed.

Lemma never_resets_toJSON : never_resets executing (Request_toJSON env stack token).
Proof.
  unfold Request_toJSON.
  apply never_resets_bind; [ apply never_resets_on_config | intros method ].
  apply never_resets_bind; [ apply never_resets_on_config | intros [h | ] ];
    [ | apply never_resets_throw ].
  repeat (apply never_resets_bind; [ apply never_resets_on_config | intros ? ]).
  apply never_resets_ret.
Qed.

Lemma never_resets_run op : never_resets executing (Request_run env stack token op).
Proof.
  destruct op; simpl; unfold discard;
    try (apply never_resets_bind; [ | intros ?; apply never_resets_ret ]);
    try apply never_resets_on_config.
  - apply never_resets_set_config.
  - apply never_resets_execute.
  - apply never_resets_toJSON.
Qed.

Lemma never_resets_kinvey_execute :
  never_resets (fun k => executing (request k)) (KinveyRequest_execute env).
Proof.
  intros k H. unfold KinveyRequest_execute.
  destruct (KinveyRequest_authorizationHeader env k) as [[h | ] | e]; [ | | exact H ].
  - exact H.
  - revert k H. change (never_resets (fun k => executing (request k))
                          (ret tt ;;; on_request Request_execute)).
    apply never_resets_bind; [ apply never_resets_ret | intros _ ].
    apply never_resets_on_request, never_resets_execute.
Qed.

Lemma never_resets_kinvey_url :
  never_resets (fun k => executing (request k)) (KinveyRequest_get_url env token).
Proof.
  unfold KinveyRequest_get_url.
  apply never_resets_bind.
  - apply never_resets_on_request. apply never_resets_on_config.
  - intros u k H. destruct (isEmpty _); exact H.
Qed.

Lemma never_resets_kinvey_toJSON :
  never_resets (fun k => executing (request k)) (KinveyRequest_toJSON env stack token).
Proof.
  unfold KinveyRequest_toJSON.
  apply never_resets_bind;
    [ apply never_resets_on_request, never_resets_on_config | intros method ].
  apply never_resets_bind;
    [ apply never_resets_on_request, never_resets_on_config | intros [h | ] ];
    [ | apply never_resets_throw ].
  apply never_resets_bind; [ apply never_resets_kinvey_url | intros u ].
  repeat (apply never_resets_bind;
          [ apply never_resets_on_request, never_resets_on_config | intros ? ]).
  intros k H. exact H.
Qed.

Lemma never_resets_kinvey_run op :
  never_resets (fun k => executing (request k)) (KinveyRequest_run env stack token op).
Proof.
  destruct op as [op | ]; [ | apply never_resets_throw ].
  destruct op; cbn [KinveyRequest_run];
    try (apply never_resets_on_request; apply never_resets_run).
  - unfold discard. apply never_resets_bind;
      [ apply never_resets_kinvey_url | intros ?; apply never_resets_ret ].
  - apply never_resets_kinvey_execute.
  - unfold discard. apply never_resets_bind;
      [ apply never_resets_kinvey_toJSON | intros ?; apply never_resets_ret ].
Qed.

Lemma Request_new_idle arg r : Request_new env arg = Return r -> executing r = false.
Proof.
  unfold Request_new. destruct (default_config env arg) as [config | e]; [ | discriminate ].
  destruct (Request_set_config env config _) as [[u | e] r']; [ | discriminate ].
  intros E. inversion E. reflexivity.
Qed.

End Executing.

(** C9.  [execute] takes an idle request to executing; called on a request
    that is executing, and so when called a second time, it fails with the
    already-executing error and leaves the request as it is; a new request
    is idle; and no member of [Request] or [KinveyRequest] takes a request
    that is executing back to idle. *)
Theorem Request_execute_once (env : Env) (stack : nat) (token : string) (r : Request) :
  (executing r = false ->
   Request_execute r = (Return tt, {| requestConfig := requestConfig r; executing := true |}))
  /\ (executing r = false ->
      Request_execute (snd (Request_execute r)) =
      (Throw (Error "Unable to execute the request. The request is already executing."),
       snd (Request_execute r)))
  /\ (executing r = true ->
      Request_execute r =
      (Throw (Error "Unable to execute the request. The request is already executing."), r))
  /\ (forall arg r0, Request_new env arg = Return r0 -> executing r0 = false)
  /\ (forall op, executing r = true ->
        executing (snd (Request_run env stack token op r)) = true)
  /\ (forall op k, executing (request k) = true ->
        executing (request (snd (KinveyRequest_run env stack token op k))) = true).
Proof.
  repeat split.
  - intros H. unfold Request_execute, Request_isExecuting. now rewrite H.
  - intros H. unfold Request_execute, Request_isExecuting. now rewrite H.
  - intros H. unfold Request_execute, Request_isExecuting. now rewrite H.
  - intros arg r0. apply Request_new_idle.
  - intros op. apply (never_resets_run env stack token op r).
  - intros op k. apply (never_resets_kinvey_run env stack token op k).
Qed.

Lemma Request_execute_once_witness :
  let r := {| requestConfig := Some (PlainConfig sample_config); executing := false |} in
  fst (Request_execute r) = Return tt
  /\ executing (snd (Request_execute r)) = true
  /\ fst (Request_execute (snd (Request_execute r))) =
     Throw (Error "Unable to execute the request. The request is already executing.").
Proof.
  pose proof (Request_execute_once sample_env 8 "t"
                {| requestConfig := Some (PlainConfig sample_config); executing := false |})
    as (First & Second & _).
  cbv zeta. rewrite (Second eq_refl). rewrite (First eq_refl).
  repeat split.
Defined.

(** ** Authorization *)

Section Authorization.

Variable env : Env.

Lemma resolve_default (t : JsValue) (client : option Client.t) :
  named_AuthType t = false ->
  resolve_authInfo env t client =
  Auth.try_catch (Auth.session env client) (fun error =>
    Auth.try_catch (Auth.master client) (fun error2 => Throw error)).
Proof.
  unfold named_AuthType, resolve_authInfo. simpl. intros H.
  repeat match type of H with
         | (?b || _) = false => destruct b; [ discriminate H | simpl in H ]
         end.
  reflexivity.
Qed.

Lemma master_credentials (c : Client.t) :
  truthy (Client.appKey c) = true -> truthy (Client.masterSecret c) = true ->
  Auth.master (Some c) =
  Return (Some {| scheme := "Basic"; username := Client.appKey c;
                  password := Client.masterSecret c; credentials := JsUndefined |}).
Proof.
  intros K M. unfold Auth.master, Auth.read. now rewrite K, M.
Qed.

End Authorization.

(** C2.  With an auth type that names no strategy (the default), the session
    strategy is tried first and its result used when it succeeds; when it
    fails, the master strategy is tried: if that fails as well the error
    thrown is the one of the session strategy, and if it succeeds the header
    carries the master credentials, Basic with the base64 text of
    appKey:masterSecret. *)
Theorem default_authType_cascade (env : Env) (k : KinveyRequest) :
  named_AuthType (own_authType k) = false ->
  (forall info, Auth.session env (own_client k) = Return info ->
     KinveyRequest_authorizationHeader env k = Return (header_of info))
  /\ (forall e e2, Auth.session env (own_client k) = Throw e ->
        Auth.master (own_client k) = Throw e2 ->
        KinveyRequest_authorizationHeader env k = Throw e)
  /\ (forall e info, Auth.session env (own_client k) = Throw e ->
        Auth.master (own_client k) = Return info ->
        KinveyRequest_authorizationHeader env k = Return (header_of info))
  /\ (forall e c, Auth.session env (own_client k) = Throw e ->
        own_client k = Some c ->
        truthy (Client.appKey c) = true -> truthy (Client.masterSecret c) = true ->
        KinveyRequest_authorizationHeader env k =
        Return (Some {| name := "Authorization";
                        value := "Basic " ++
                                 base64 (String (Client.appKey c) ++ ":" ++
                                         String (Client.masterSecret c)) |})).
Proof.
  intros D. unfold KinveyRequest_authorizationHeader.
  rewrite (resolve_default env _ _ D).
  split; [ | split; [ | split ] ].
  - intros info S. now rewrite S.
  - intros e e2 S M. now rewrite S, M.
  - intros e info S M. now rewrite S, M.
  - intros e c S C K M. rewrite S. simpl. rewrite C.
    rewrite (master_credentials c K M). simpl. now rewrite K.
Qed.

Lemma default_authType_cascade_witness :
  KinveyRequest_authorizationHeader sample_env
    (sample_request JsUndefined (Some (sample_client JsNull JsUndefined)))
  = Throw (NoActiveUserError
      "There is not an active user. Please login a user and retry the request.")
  /\ KinveyRequest_authorizationHeader sample_env
       (sample_request JsUndefined (Some (sample_client JsNull (JsString "secret"))))
     = Return (Some {| name := "Authorization"; value := "Basic a2lkOnNlY3JldA==" |}).
Proof.
  split.
  - apply (proj1 (proj2 (default_authType_cascade sample_env
             (sample_request JsUndefined (Some (sample_client JsNull JsUndefined)))
             eq_refl))
             (NoActiveUserError
                "There is not an active user. Please login a user and retry the request.")
             (Error "Missing client credentials"));
      reflexivity.
  - apply (proj2 (proj2 (proj2 (default_authType_cascade sample_env
             (sample_request JsUndefined (Some (sample_client JsNull (JsString "secret"))))
             eq_refl)))
             (NoActiveUserError
                "There is not an active user. Please login a user and retry the request.")
             (sample_client JsNull (JsString "secret")));
      reflexivity.
Defined.

(** C1.  [execute] of an API request resolves the authorization header from
    the [authType] and [client] properties of the request itself, not of
    its config; whenever a header is resolved the call throws a TypeError
    at [this.addHeader] and leaves the request as it was, idle and with no
    header merged; a request just constructed fails already in the
    resolution; and however the call completes, the config and its headers
    are unchanged. *)
Theorem KinveyRequest_execute_merges_no_header (env : Env) (k : KinveyRequest) :
  (forall h, KinveyRequest_authorizationHeader env k = Return (Some h) ->
     KinveyRequest_execute env k =
     (Throw (TypeError "this.addHeader is not a function"), k))
  /\ (own_authType k = JsUndefined -> own_client k = None ->
      KinveyRequest_execute env k =
      (Throw (TypeError "Cannot read property 'activeUser' of undefined"), k))
  /\ (forall arg k0, KinveyRequest_new env arg = Return k0 ->
        own_authType k0 = JsUndefined /\ own_client k0 = None)
  /\ config_of (snd (KinveyRequest_execute env k)) = config_of k.
Proof.
  split; [ | split; [ | split ] ].
  - intros h H. unfold KinveyRequest_execute. rewrite H. reflexivity.
  - intros T C. unfold KinveyRequest_execute, KinveyRequest_authorizationHeader.
    rewrite T, C. reflexivity.
  - intros arg k0. unfold KinveyRequest_new.
    destruct (Request_new env arg); [ | discriminate ].
    intros E. inversion E. split; reflexivity.
  - unfold KinveyRequest_execute.
    destruct (KinveyRequest_authorizationHeader env k) as [[h | ] | e]; try reflexivity.
    unfold bind, ret, on_request, Request_execute, config_of.
    destruct (Request_isExecuting (request k)); reflexivity.
Qed.

Lemma KinveyRequest_execute_merges_no_header_witness :
  let k := sample_request (JsString "Master")
             (Some (sample_client JsNull (JsString "secret"))) in
  KinveyRequest_authorizationHeader sample_env k
  = Return (Some {| name := "Authorization"; value := "Basic a2lkOnNlY3JldA==" |})
  /\ KinveyRequest_execute sample_env k =
     (Throw (TypeError "this.addHeader is not a function"), k).
Proof.
  split; [ reflexivity | ].
  apply (proj1 (KinveyRequest_execute_merges_no_header sample_env
           (sample_request (JsString "Master")
              (Some (sample_client JsNull (JsString "secret")))))
           {| name := "Authorization"; value := "Basic a2lkOnNlY3JldA==" |}).
  reflexivity.
Defined.

(** * Further properties *)

(** ** Stores *)

Section Stores.

Lemma has_key_In k o : has_key k o = true <-> In k (keys o).
Proof.
  induction o as [ | [k' v] r IH ]; simpl.
  - split; [ discriminate | tauto ].
  - destruct (String.eqb_spec k' k) as [E | N].
    + split; auto.
    + rewrite IH. split; [ auto | intros [E | H]; [ congruence | exact H ] ].
Qed.

Lemma has_key_false k o : has_key k o = false <-> ~ In k (keys o).
Proof.
  rewrite <- has_key_In. destruct (has_key k o); split; congruence.
Qed.

Lemma keys_update k v o : keys (update k v o) = keys o.
Proof.
  induction o as [ | [k' v'] r IH ]; simpl; [ reflexivity | ].
  destruct (k' =? k)%string; simpl; [ reflexivity | now rewrite IH ].
Qed.

Lemma In_keys_insert_new k v o x : In x (keys (insert_new k v o)) <-> x = k \/ In x (keys o).
Proof.
  induction o as [ | [k' v'] r IH ]; simpl.
  - intuition.
  - destruct (array_index k), (array_index k'); try destruct (_ <? _); simpl;
      rewrite ?IH; intuition.
Qed.

Lemma insert_new_unique k v o :
  ~ In k (keys o) -> keys_unique o -> keys_unique (insert_new k v o).
Proof.
  unfold keys_unique. induction o as [ | [k' v'] r IH ]; simpl; intros Hn Hu.
  - constructor; [ tauto | constructor ].
  - inversion Hu as [ | ? ? Hk' Hr ]; subst.
    assert (Step : NoDup (k' :: keys (insert_new k v r))).
    { constructor.
      - change (~ In k' (keys (insert_new k v r))).
        rewrite In_keys_insert_new. intuition.
      - apply IH; [ tauto | exact Hr ]. }
    assert (Front : NoDup (k :: k' :: keys r)).
    { constructor; [ exact Hn | exact Hu ]. }
    destruct (array_index k), (array_index k'); try destruct (_ <? _); simpl; assumption.
Qed.

Lemma assign_unique k v o : keys_unique o -> keys_unique (assign k v o).
Proof.
  intros Hu. unfold assign.
  destruct (k =? "__proto__")%string; [ exact Hu | ].
  destruct (has_key k o) eqn:H.
  - unfold keys_unique. now rewrite keys_update.
  - apply insert_new_unique; [ now apply has_key_false | exact Hu ].
Qed.

Lemma In_keys_delete k o x : In x (keys (delete k o)) -> In x (keys o).
Proof.
  induction o as [ | [k' v'] r IH ]; simpl; [ tauto | ].
  destruct (k' =? k)%string; simpl; intuition.
Qed.

Lemma delete_unique k o : keys_unique o -> keys_unique (delete k o).
Proof.
  unfold keys_unique. induction o as [ | [k' v'] r IH ]; simpl; intros Hu; [ exact Hu | ].
  inversion Hu as [ | ? ? Hk' Hr ]; subst.
  destruct (k' =? k)%string; [ exact Hr | ].
  simpl. constructor; [ | now apply IH ].
  intros H. apply Hk'. now apply In_keys_delete in H.
Qed.

Lemma delete_absent k o : keys_unique o -> has_key k (delete k o) = false.
Proof.
  unfold keys_unique. induction o as [ | [k' v'] r IH ]; simpl; intros Hu; [ reflexivity | ].
  inversion Hu as [ | ? ? Hk' Hr ]; subst.
  destruct (String.eqb_spec k' k) as [E | N].
  - subst k'. now apply has_key_false.
  - simpl. destruct (String.eqb_spec k' k); [ congruence | now apply IH ].
Qed.

Lemma lookup_update_same k v o : has_key k o = true -> lookup k (update k v o) = v.
Proof.
  induction o as [ | [k' v'] r IH ]; simpl; [ discriminate | ].
  destruct (String.eqb_spec k' k) as [E | N]; simpl.
  - intros _. now rewrite (proj2 (String.eqb_eq k' k) E).
  - intros H. rewrite (proj2 (String.eqb_neq k' k) N). now apply IH.
Qed.

Lemma lookup_update_other k v o x : x <> k -> lookup x (update k v o) = lookup x o.
Proof.
  intros Hx. induction o as [ | [k' v'] r IH ]; simpl; [ reflexivity | ].
  destruct (String.eqb_spec k' k) as [E | N]; simpl.
  - subst k'. now rewrite (proj2 (String.eqb_neq k x)) by congruence.
  - destruct (k' =? x)%string; [ reflexivity | exact IH ].
Qed.

Lemma lookup_insert_new_same k v o : has_key k o = false -> lookup k (insert_new k v o) = v.
Proof.
  induction o as [ | [k' v'] r IH ]; simpl.
  - intros _. now rewrite String.eqb_refl.
  - destruct (String.eqb_spec k' k) as [E | N]; [ discriminate | ]. intros H.
    destruct (array_index k), (array_index k'); try destruct (_ <? _); simpl;
      rewrite ?String.eqb_refl, ?(proj2 (String.eqb_neq k' k) N); auto.
Qed.

Lemma lookup_insert_new_other k v o x : x <> k -> lookup x (insert_new k v o) = lookup x o.
Proof.
  intros Hx. assert (Hk : (k =? x)%string = false) by (apply String.eqb_neq; congruence).
  induction o as [ | [k' v'] r IH ]; simpl.
  - now rewrite Hk.
  - destruct (array_index k), (array_index k'); try destruct (_ <? _); simpl;
      rewrite ?Hk, ?IH; reflexivity.
Qed.

Lemma lookup_assign_same k v o : k <> "__proto__" -> lookup k (assign k v o) = v.
Proof.
  intros Hp. unfold assign. rewrite (proj2 (String.eqb_neq _ _) Hp).
  destruct (has_key k o) eqn:H;
    [ now apply lookup_update_same | now apply lookup_insert_new_same ].
Qed.

Lemma lookup_assign_other k v o x : x <> k -> lookup x (assign k v o) = lookup x o.
Proof.
  intros Hx. unfold assign. destruct (k =? "__proto__")%string; [ reflexivity | ].
  destruct (has_key k o);
    [ now apply lookup_update_other | now apply lookup_insert_new_other ].
Qed.

Lemma lookup_delete_other k o x : x <> k -> lookup x (delete k o) = lookup x o.
Proof.
  intros Hx. induction o as [ | [k' v'] r IH ]; simpl; [ reflexivity | ].
  destruct (String.eqb_spec k' k) as [E | N]; simpl.
  - subst k'. now rewrite (proj2 (String.eqb_neq k x)) by congruence.
  - destruct (k' =? x)%string; [ reflexivity | exact IH ].
Qed.

Lemma lookup_absent k o : has_key k o = false -> lookup k o = JsUndefined.
Proof.
  induction o as [ | [k' v'] r IH ]; simpl; [ reflexivity | ].
  destruct (k' =? k)%string; [ discriminate | exact IH ].
Qed.

End Stores.

(** ** Header maps, further *)

Section HeaderLookup.

Lemma lookup_app_skip k p q : ~ In k (keys p) -> lookup k (p ++ q)%list = lookup k q.
Proof.
  induction p as [ | [k' v'] r IH ]; simpl; intros H; [ reflexivity | ].
  destruct (String.eqb_spec k' k) as [E | N]; [ tauto | apply IH; tauto ].
Qed.

Lemma get_loop_suffix s : forall p n,
  (forall k, In k (keys p) -> toLowerCase k <> toLowerCase n) ->
  Headers_get_loop (p ++ s)%list (keys s) n = first_match n s.
Proof.
  induction s as [ | [k v] r IH ]; intros p n Hp; simpl; [ reflexivity | ].
  destruct (String.eqb_spec (toLowerCase k) (toLowerCase n)) as [E | N].
  - rewrite lookup_app_skip.
    + simpl. now rewrite String.eqb_refl.
    + intros H. exact (Hp k H E).
  - replace (p ++ (k, v) :: r)%list with ((p ++ [(k, v)]) ++ r)%list
      by (rewrite <- app_assoc; reflexivity).
    apply IH. intros k' H. unfold keys in H. rewrite map_app in H.
    apply in_app_or in H. destruct H as [H | [H | []]].
    + now apply Hp.
    + simpl in H. now subst k'.
Qed.

Lemma get_first_match n h :
  Headers_get n h =
  if truthy n then first_match (name_string n) (headers_or_empty h) else JsUndefined.
Proof.
  unfold Headers_get. destruct (truthy n); [ | reflexivity ].
  apply (get_loop_suffix (headers_or_empty h) [] (name_string n)).
  intros k [].
Qed.

Lemma first_match_case n1 n2 o :
  toLowerCase n1 = toLowerCase n2 -> first_match n1 o = first_match n2 o.
Proof.
  intros E. induction o as [ | [k v] r IH ]; simpl; [ reflexivity | ].
  now rewrite E, IH.
Qed.

Lemma lower_empty s : toLowerCase s = EmptyString -> s = EmptyString.
Proof. destruct s; [ reflexivity | discriminate ]. Qed.

Lemma first_match_insert_new n k v o :
  toLowerCase n = toLowerCase k ->
  (forall k', In k' (keys o) -> toLowerCase k' <> toLowerCase k) ->
  first_match n (insert_new k v o) = v.
Proof.
  intros E. assert (Hk : (toLowerCase k =? toLowerCase n)%string = true)
    by (apply String.eqb_eq; congruence).
  induction o as [ | [k' v'] r IH ]; simpl; intros Hn.
  - now rewrite Hk.
  - assert (Hk' : (toLowerCase k' =? toLowerCase n)%string = false).
    { apply String.eqb_neq. rewrite E. apply Hn. now left. }
    assert (Hr : first_match n (insert_new k v r) = v)
      by (apply IH; intros x Hx; apply Hn; now right).
    destruct (array_index k), (array_index k'); try destruct (_ <? _); simpl;
      rewrite ?Hk, ?Hk', ?Hr; reflexivity.
Qed.

Lemma run_keys_unique op h :
  keys_unique (headers_or_empty h) -> keys_unique (headers_or_empty (snd (Headers_run op h))).
Proof.
  intros Hu. destruct op as [ n v | header | arg | n | ]; simpl.
  - unfold Headers_set.
    destruct (negb (truthy n) || negb (truthy v)); simpl; [ exact Hu | ].
    destruct (negb (isString v)); now apply assign_unique.
  - now rewrite add_keeps.
  - now rewrite addAll_keeps.
  - unfold Headers_remove. destruct (truthy n); simpl; [ | exact Hu ].
    now apply delete_unique.
  - constructor.
Qed.

Lemma set_store n v h :
  truthy n = true -> truthy v = true ->
  Headers_set n v h =
  (Return tt, {| headers := Some (assign (name_string n) (stored v) (headers_or_empty h)) |}).
Proof.
  intros Tn Tv. unfold Headers_set, stored. rewrite Tn, Tv. simpl.
  destruct (negb (isString v)); reflexivity.
Qed.

Lemma reachable_keys_unique h : Headers_reachable h -> keys_unique (headers_or_empty h).
Proof.
  induction 1 as [ | op h Hr IH ].
  - constructor.
  - now apply run_keys_unique.
Qed.

End HeaderLookup.

(** X1.  A header map produced by the class never lists a name twice in
    the same spelling: the names of its store are pairwise different. *)
Theorem Headers_names_unique (h : Headers) :
  Headers_reachable h -> NoDup (map fst (headers_or_empty h)).
Proof. apply reachable_keys_unique. Qed.

Lemma Headers_names_unique_witness :
  NoDup (map fst (headers_or_empty
    (snd (Headers_run (OpSet (JsString "Accept") (JsNumber 1))
       (snd (Headers_run (OpSet (JsString "accept") (JsString "a")) {| headers := None |})))))).
Proof.
  apply Headers_names_unique. apply reachable_run. apply reachable_run. apply reachable_new.
Defined.

(** X2.  When no stored name equals [n] up to case and [n] is not
    [__proto__] (all names being ASCII), [set(n, v)] followed by [get(n2)]
    for any spelling [n2] of [n] returns what was stored for [v]: the value
    itself when a string, what [JSON.stringify] makes of it otherwise.
    [has(n2)] is then true unless that is [undefined].  ([has(n)] being
    false beforehand is not enough: a stored [undefined] hides its name
    from [has].) *)
Theorem Headers_set_then_get_fresh (h : Headers) (n v n2 : JsValue) :
  truthy n = true -> truthy v = true -> truthy n2 = true ->
  name_string n <> "__proto__" ->
  ascii_only (name_string n) = true -> ascii_only (name_string n2) = true ->
  (forall k, In k (map fst (headers_or_empty h)) ->
     ascii_only k = true /\ toLowerCase k <> toLowerCase (name_string n)) ->
  toLowerCase (name_string n2) = toLowerCase (name_string n) ->
  Headers_get n2 (snd (Headers_set n v h)) = stored v
  /\ Headers_has n2 (snd (Headers_set n v h)) = truthy (stored v)
  /\ (stored v <> JsUndefined -> Headers_has n2 (snd (Headers_set n v h)) = true).
Proof.
  intros Tn Tv Tn2 Hp _ _ Fresh E.
  assert (G : Headers_get n2 (snd (Headers_set n v h)) = stored v).
  { rewrite (set_store n v h Tn Tv). simpl.
    rewrite get_first_match, Tn2. cbn [headers_or_empty headers].
    unfold assign. rewrite (proj2 (String.eqb_neq _ _) Hp).
    replace (has_key (name_string n) (headers_or_empty h)) with false.
    - apply first_match_insert_new; [ exact E | ].
      intros k Hk. exact (proj2 (Fresh k Hk)).
    - symmetry. apply has_key_false. intros H. exact (proj2 (Fresh _ H) eq_refl). }
  split; [ exact G | ].
  unfold Headers_has. rewrite G. split; [ reflexivity | ].
  intros D. destruct (stored_value_ok v Tv) as [U | (s & Es & Ne)].
  - contradiction.
  - unfold stored. rewrite Es. simpl. destruct s; [ congruence | reflexivity ].
Qed.

Lemma Headers_set_then_get_fresh_witness :
  Headers_get (JsString "x-kinvey-api-version")
    (snd (Headers_set (JsString "X-Kinvey-Api-Version") (JsNumber 4)
            {| headers := Some [("accept", JsString "a")] |}))
  = JsString "4".
Proof.
  apply (Headers_set_then_get_fresh
           {| headers := Some [("accept", JsString "a")] |}
           (JsString "X-Kinvey-Api-Version") (JsNumber 4)
           (JsString "x-kinvey-api-version"));
    try reflexivity.
  - discriminate.
  - intros k [K | []]. subst k. split; [ reflexivity | discriminate ].
Defined.

(** X3.  [get] and [has] do not tell spellings of a name apart: for two
    names equal after lower-casing they return the same. *)
Theorem Headers_get_ignores_case (h : Headers) (s1 s2 : string) :
  toLowerCase s1 = toLowerCase s2 ->
  Headers_get (JsString s1) h = Headers_get (JsString s2) h
  /\ Headers_has (JsString s1) h = Headers_has (JsString s2) h.
Proof.
  intros E.
  assert (G : Headers_get (JsString s1) h = Headers_get (JsString s2) h).
  { rewrite !get_first_match. simpl.
    destruct s1, s2; try discriminate E; [ reflexivity | ].
    simpl negb. now apply first_match_case. }
  split; [ exact G | ]. unfold Headers_has. now rewrite G.
Qed.

Lemma Headers_get_ignores_case_witness :
  Headers_get (JsString "ACCEPT") {| headers := Some [("accept", JsString "a")] |}
  = Headers_get (JsString "Accept") {| headers := Some [("accept", JsString "a")] |}.
Proof.
  apply (Headers_get_ignores_case {| headers := Some [("accept", JsString "a")] |}
           "ACCEPT" "Accept").
  reflexivity.
Defined.

(** X4.  After [set(n, v)] with a name other than [__proto__], the own
    property of that exact name in [toJSON()] is what was stored for [v],
    every other property is as before, and when the name was already
    stored the names and their order are as before. *)
Theorem Headers_set_own_property (h : Headers) (n v : JsValue) :
  truthy n = true -> truthy v = true -> name_string n <> "__proto__" ->
  let o := headers_or_empty h in
  let o' := headers_or_empty (snd (Headers_set n v h)) in
  Headers_toJSON (snd (Headers_set n v h)) = JsObject o'
  /\ lookup (name_string n) o' = stored v
  /\ (forall k, k <> name_string n -> lookup k o' = lookup k o)
  /\ (has_key (name_string n) o = true -> map fst o' = map fst o).
Proof.
  intros Tn Tv Hp. cbv zeta. rewrite (set_store n v h Tn Tv).
  cbn [snd headers_or_empty headers Headers_toJSON].
  split; [ reflexivity | split; [ | split ] ].
  - now apply lookup_assign_same.
  - intros k Hk. now apply lookup_assign_other.
  - intros H. unfold assign. rewrite (proj2 (String.eqb_neq _ _) Hp), H.
    apply keys_update.
Qed.

Lemma Headers_set_own_property_witness :
  lookup "Accept"
    (headers_or_empty (snd (Headers_set (JsString "Accept") (JsBool true)
                              {| headers := Some [("accept", JsString "a")] |})))
  = JsString "true".
Proof.
  apply (Headers_set_own_property {| headers := Some [("accept", JsString "a")] |}
           (JsString "Accept") (JsBool true)); try reflexivity.
  discriminate.
Defined.

(** X5.  On a header map produced by the class, [remove(n)] leaves no
    property of the exact name [n] and keeps every other property; with a
    falsy name it does nothing. *)
Theorem Headers_remove_exact_name (h : Headers) (n : JsValue) :
  Headers_reachable h ->
  let o := headers_or_empty h in
  let o' := headers_or_empty (snd (Headers_remove n h)) in
  (truthy n = true -> has_key (name_string n) o' = false)
  /\ (truthy n = true -> forall k, k <> name_string n -> lookup k o' = lookup k o)
  /\ (truthy n = false -> Headers_remove n h = (Return tt, h)).
Proof.
  intros Hr. cbv zeta. unfold Headers_remove.
  destruct (truthy n); simpl; split; try split; try discriminate; intros _.
  - apply delete_absent. apply (reachable_keys_unique h Hr).
  - intros k Hk. now apply lookup_delete_other.
  - reflexivity.
Qed.

Lemma Headers_remove_exact_name_witness :
  has_key "accept"
    (headers_or_empty
       (snd (Headers_remove (JsString "accept")
               (snd (Headers_run (OpSet (JsString "accept") (JsString "a"))
                       {| headers := None |})))))
  = false.
Proof.
  apply (proj1 (Headers_remove_exact_name
                  (snd (Headers_run (OpSet (JsString "accept") (JsString "a"))
                          {| headers := None |}))
                  (JsString "accept")
                  (reachable_run _ _ reachable_new))).
  reflexivity.
Defined.

(** ** Auth strategies *)

Section Strategies.

Variable env : Env.

Ltac run_strategy :=
  repeat match goal with
         | |- context [ truthy ?v ] => destruct (truthy v) eqn:?; simpl
         | |- context [ member ?v ?k ] => destruct (member v k); simpl
         | |- Throw _ = Return _ -> _ => discriminate
         | |- Return _ = Return _ -> _ =>
             let E := fresh in intros E; inversion E; subst; clear E
         end.

Lemma master_result client r : Auth.master client = Return r -> basic_result r.
Proof.
  unfold Auth.master, Auth.read. destruct client as [c | ]; [ | discriminate ].
  run_strategy. eexists _, _. repeat split; assumption.
Qed.

Lemma app_result client r : Auth.app client = Return r -> basic_result r.
Proof.
  unfold Auth.app, Auth.read. destruct client as [c | ]; [ | discriminate ].
  run_strategy. eexists _, _. repeat split; assumption.
Qed.

Lemma session_result_of client r : Auth.session env client = Return r -> session_result r.
Proof.
  unfold Auth.session, Auth.read. destruct client as [c | ]; [ | discriminate ].
  run_strategy. eexists. reflexivity.
Qed.

Lemma basic_result_of client r : Auth.basic client = Return r -> basic_result r.
Proof.
  unfold Auth.basic, Auth.try_catch.
  destruct (Auth.master client) as [m | e] eqn:M.
  - intros E. inversion E; subst. exact (master_result client r M).
  - apply app_result.
Qed.

Lemma all_result client r :
  Auth.all env client = Return r -> basic_result r \/ session_result r.
Proof.
  unfold Auth.all, Auth.try_catch.
  destruct (Auth.session env client) as [s | e] eqn:S.
  - intros E. inversion E; subst. right. exact (session_result_of client r S).
  - intros B. left. exact (basic_result_of client r B).
Qed.

Lemma is_AuthType_eq t s : is_AuthType t s = true -> t = JsString s.
Proof.
  destruct t; simpl; try discriminate.
  intros E. apply String.eqb_eq in E. now subst.
Qed.

Lemma resolve_result t client r :
  resolve_authInfo env t client = Return r ->
  (r = None /\ t = JsString "None") \/ basic_result r \/ session_result r.
Proof.
  unfold resolve_authInfo.
  destruct (is_AuthType t "All"); [ intros H; right; now apply all_result in H | ].
  destruct (is_AuthType t "App"); [ intros H; right; left; now apply app_result in H | ].
  destruct (is_AuthType t "Basic");
    [ intros H; right; left; now apply basic_result_of in H | ].
  destruct (is_AuthType t "Master");
    [ intros H; right; left; now apply master_result in H | ].
  destruct (is_AuthType t "None") eqn:N.
  - intros H. inversion H. left. split; [ reflexivity | now apply is_AuthType_eq ].
  - destruct (is_AuthType t "Session");
      [ intros H; right; right; now apply session_result_of in H | ].
    unfold Auth.try_catch.
    destruct (Auth.session env client) as [s | e] eqn:S.
    + intros E. inversion E; subst. right; right. exact (session_result_of client r S).
    + destruct (Auth.master client) as [m | e2] eqn:M; [ | discriminate ].
      intros E. inversion E; subst. right; left. exact (master_result client r M).
Qed.

End Strategies.

(** X6.  For a client with an app key, [Auth.basic] answers with the master
    secret whenever there is one, also when an app secret is present; with
    the app secret when there is no master secret; and throws the
    missing-credentials error when there is neither.  Without an app key it
    throws that error whatever the secrets. *)
Theorem Auth_basic_prefers_master (c : Client.t) :
  (truthy (Client.appKey c) = true -> truthy (Client.masterSecret c) = true ->
   Auth.basic (Some c) =
   Return (Some {| scheme := "Basic"; username := Client.appKey c;
                   password := Client.masterSecret c; credentials := JsUndefined |}))
  /\ (truthy (Client.appKey c) = true -> truthy (Client.masterSecret c) = false ->
      truthy (Client.appSecret c) = true ->
      Auth.basic (Some c) =
      Return (Some {| scheme := "Basic"; username := Client.appKey c;
                      password := Client.appSecret c; credentials := JsUndefined |}))
  /\ (truthy (Client.masterSecret c) = false -> truthy (Client.appSecret c) = false ->
      Auth.basic (Some c) = Throw (Error "Missing client credentials"))
  /\ (truthy (Client.appKey c) = false ->
      Auth.basic (Some c) = Throw (Error "Missing client credentials")).
Proof.
  unfold Auth.basic, Auth.try_catch, Auth.master, Auth.app, Auth.read.
  repeat split; intros; repeat match goal with H : truthy _ = _ |- _ => rewrite H; clear H end;
    simpl; try reflexivity;
    destruct (truthy (Client.appKey c)); reflexivity.
Qed.

Lemma Auth_basic_prefers_master_witness :
  Auth.basic (Some {| Client.appKey := JsString "kid"; Client.appSecret := JsString "app";
                      Client.masterSecret := JsString "master";
                      Client.activeUser := JsNull |})
  = Return (Some {| scheme := "Basic"; username := JsString "kid";
                    password := JsString "master"; credentials := JsUndefined |}).
Proof.
  apply (proj1 (Auth_basic_prefers_master
                  {| Client.appKey := JsString "kid"; Client.appSecret := JsString "app";
                     Client.masterSecret := JsString "master";
                     Client.activeUser := JsNull |}));
    reflexivity.
Defined.

(** X7.  When [Auth.basic] or [Auth.all] fails, the error thrown is the one
    of the app strategy, the last one tried: the errors of the session and
    master strategies are dropped. *)
Theorem Auth_fallback_surfaces_app_error (env : Env) (client : option Client.t)
  (e : JsError) :
  (Auth.basic client = Throw e ->
   Auth.app client = Throw e /\ exists e2, Auth.master client = Throw e2)
  /\ (Auth.all env client = Throw e ->
      Auth.app client = Throw e
      /\ (exists e1, Auth.session env client = Throw e1)
      /\ (exists e2, Auth.master client = Throw e2)).
Proof.
  unfold Auth.all, Auth.basic, Auth.try_catch. split.
  - destruct (Auth.master client) as [m | e2]; [ discriminate | ].
    intros A. split; [ exact A | now exists e2 ].
  - destruct (Auth.session env client) as [s | e1]; [ discriminate | ].
    destruct (Auth.master client) as [m | e2]; [ discriminate | ].
    intros A. split; [ exact A | split; [ now exists e1 | now exists e2 ] ].
Qed.

Lemma Auth_fallback_surfaces_app_error_witness :
  Auth.app (Some (sample_client JsNull JsUndefined))
  = Throw (Error "Missing client credentials").
Proof.
  apply (proj2 (Auth_fallback_surfaces_app_error sample_env
                  (Some (sample_client JsNull JsUndefined))
                  (Error "Missing client credentials"))).
  reflexivity.
Defined.

(** X8.  [Auth.session] throws the no-active-user error when the client's
    active user is falsy.  With an active user whose metadata block is an
    object it succeeds with the Kinvey scheme and the block's [authtoken],
    also when the block has no token: the header then reads
    [Kinvey undefined].  With an active user that has no metadata block it
    throws a TypeError. *)
Theorem Auth_session_cases (env : Env) (c : Client.t) :
  (truthy (Client.activeUser c) = false ->
   Auth.session env (Some c) =
   Throw (NoActiveUserError
     "There is not an active user. Please login a user and retry the request."))
  /\ (forall user kmd,
        Client.activeUser c = JsObject user ->
        lookup (kmdAttribute env) user = JsObject kmd ->
        Auth.session env (Some c) =
        Return (Some {| scheme := "Kinvey"; username := JsUndefined;
                        password := JsUndefined; credentials := lookup "authtoken" kmd |})
        /\ (has_key "authtoken" kmd = false ->
            header_of (Some {| scheme := "Kinvey"; username := JsUndefined;
                               password := JsUndefined;
                               credentials := lookup "authtoken" kmd |})
            = Some {| name := "Authorization"; value := "Kinvey undefined" |}))
  /\ (forall user,
        Client.activeUser c = JsObject user ->
        has_key (kmdAttribute env) user = false ->
        Auth.session env (Some c) =
        Throw (TypeError "Cannot read property 'authtoken' of undefined")).
Proof.
  unfold Auth.session, Auth.read. split; [ | split ].
  - intros T. now rewrite T.
  - intros user kmd U K. rewrite U. simpl. rewrite K. simpl.
    split; [ reflexivity | ].
    intros H. now rewrite (lookup_absent _ _ H).
  - intros user U K. rewrite U. simpl. now rewrite (lookup_absent _ _ K).
Qed.

Lemma Auth_session_cases_witness :
  Auth.session sample_env
    (Some (sample_client (JsObject [("_kmd", JsObject [("authtoken", JsString "tok")])])
             JsUndefined))
  = Return (Some {| scheme := "Kinvey"; username := JsUndefined;
                    password := JsUndefined; credentials := JsString "tok" |}).
Proof.
  apply (proj1 (proj1 (proj2 (Auth_session_cases sample_env
           (sample_client (JsObject [("_kmd", JsObject [("authtoken", JsString "tok")])])
              JsUndefined)))
           [("_kmd", JsObject [("authtoken", JsString "tok")])]
           [("authtoken", JsString "tok")] eq_refl eq_refl)).
Defined.

(** ** The authorization header *)

Lemma authorizationHeader_null (env : Env) (k : KinveyRequest) :
  KinveyRequest_authorizationHeader env k = Return None <->
  own_authType k = JsString "None".
Proof.
  unfold KinveyRequest_authorizationHeader. split.
  - destruct (resolve_authInfo env (own_authType k) (own_client k)) as [r | e] eqn:R;
      [ | discriminate ].
    destruct (resolve_result env _ _ _ R) as [[_ T] | [(u & p & E & Tu & _) | (t & E)]];
      [ intros _; exact T | | ]; subst r; simpl; try rewrite Tu; discriminate.
  - intros T. rewrite T. reflexivity.
Qed.

Section ResolvedCredentials.

Variable env : Env.

Lemma master_exact client r :
  Auth.master client = Return r ->
  exists c, client = Some c
    /\ truthy (Client.appKey c) = true /\ truthy (Client.masterSecret c) = true
    /\ r = Some {| scheme := "Basic"; username := Client.appKey c;
                   password := Client.masterSecret c; credentials := JsUndefined |}.
Proof.
  unfold Auth.master, Auth.read. destruct client as [c | ]; [ | discriminate ].
  destruct (truthy (Client.appKey c)) eqn:K; simpl; [ | discriminate ].
  destruct (truthy (Client.masterSecret c)) eqn:M; simpl; [ | discriminate ].
  intros E. inversion E. exists c. auto.
Qed.

Lemma app_exact client r :
  Auth.app client = Return r ->
  exists c, client = Some c
    /\ truthy (Client.appKey c) = true /\ truthy (Client.appSecret c) = true
    /\ r = Some {| scheme := "Basic"; username := Client.appKey c;
                   password := Client.appSecret c; credentials := JsUndefined |}.
Proof.
  unfold Auth.app, Auth.read. destruct client as [c | ]; [ | discriminate ].
  destruct (truthy (Client.appKey c)) eqn:K; simpl; [ | discriminate ].
  destruct (truthy (Client.appSecret c)) eqn:M; simpl; [ | discriminate ].
  intros E. inversion E. exists c. auto.
Qed.

Lemma session_exact client r :
  Auth.session env client = Return r ->
  exists c kmd token, client = Some c
    /\ truthy (Client.activeUser c) = true
    /\ member (Client.activeUser c) (kmdAttribute env) = inl kmd
    /\ member kmd "authtoken" = inl token
    /\ r = Some {| scheme := "Kinvey"; username := JsUndefined;
                   password := JsUndefined; credentials := token |}.
Proof.
  unfold Auth.session, Auth.read. destruct client as [c | ]; [ | discriminate ].
  destruct (truthy (Client.activeUser c)) eqn:U; simpl; [ | discriminate ].
  destruct (member (Client.activeUser c) (kmdAttribute env)) as [kmd | e] eqn:K;
    [ | discriminate ].
  destruct (member kmd "authtoken") as [token | e] eqn:T; [ | discriminate ].
  intros E. inversion E. exists c, kmd, token. auto.
Qed.

Lemma master_header client r h :
  Auth.master client = Return r -> header_of r = Some h ->
  exists c, client = Some c /\ name h = "Authorization" /\ basic_header c h.
Proof.
  intros M H. destruct (master_exact client r M) as (c & C & K & S & R).
  subst r. simpl in H. rewrite K in H. inversion H. subst h.
  exists c. split; [ exact C | split; [ reflexivity | ] ].
  exists (Client.masterSecret c). auto.
Qed.

Lemma app_header client r h :
  Auth.app client = Return r -> header_of r = Some h ->
  exists c, client = Some c /\ name h = "Authorization" /\ basic_header c h.
Proof.
  intros M H. destruct (app_exact client r M) as (c & C & K & S & R).
  subst r. simpl in H. rewrite K in H. inversion H. subst h.
  exists c. split; [ exact C | split; [ reflexivity | ] ].
  exists (Client.appSecret c). auto.
Qed.

Lemma session_header_of client r h :
  Auth.session env client = Return r -> header_of r = Some h ->
  exists c, client = Some c /\ name h = "Authorization" /\ session_header env c h.
Proof.
  intros S H. destruct (session_exact client r S) as (c & kmd & token & C & U & K & T & R).
  subst r. simpl in H. inversion H. subst h.
  exists c. split; [ exact C | split; [ reflexivity | ] ].
  exists kmd, token. auto.
Qed.

Lemma basic_header_of client r h :
  Auth.basic client = Return r -> header_of r = Some h ->
  exists c, client = Some c /\ name h = "Authorization" /\ basic_header c h.
Proof.
  unfold Auth.basic, Auth.try_catch.
  destruct (Auth.master client) as [m | e] eqn:M.
  - intros E. inversion E; subst. now apply master_header.
  - apply app_header.
Qed.

Lemma resolved_header t client r h :
  resolve_authInfo env t client = Return r -> header_of r = Some h ->
  exists c, client = Some c /\ name h = "Authorization"
            /\ (basic_header c h \/ session_header env c h).
Proof.
  assert (B : (exists c, client = Some c /\ name h = "Authorization"
                         /\ basic_header c h) ->
              exists c, client = Some c /\ name h = "Authorization"
                        /\ (basic_header c h \/ session_header env c h)).
  { intros (c & C & N & H). exists c. auto. }
  assert (S : (exists c, client = Some c /\ name h = "Authorization"
                         /\ session_header env c h) ->
              exists c, client = Some c /\ name h = "Authorization"
                        /\ (basic_header c h \/ session_header env c h)).
  { intros (c & C & N & H). exists c. auto. }
  unfold resolve_authInfo.
  destruct (is_AuthType t "All").
  { unfold Auth.all, Auth.try_catch.
    destruct (Auth.session env client) as [s | e] eqn:Se.
    - intros E H. inversion E; subst. apply S. now apply (session_header_of client r).
    - intros Ba H. apply B. now apply (basic_header_of client r). }
  destruct (is_AuthType t "App");
    [ intros A H; apply B; now apply (app_header client r) | ].
  destruct (is_AuthType t "Basic");
    [ intros A H; apply B; now apply (basic_header_of client r) | ].
  destruct (is_AuthType t "Master");
    [ intros A H; apply B; now apply (master_header client r) | ].
  destruct (is_AuthType t "None");
    [ intros A H; inversion A; subst; discriminate H | ].
  destruct (is_AuthType t "Session");
    [ intros A H; apply S; now apply (session_header_of client r) | ].
  unfold Auth.try_catch.
  destruct (Auth.session env client) as [s | e] eqn:Se.
  - intros E H. inversion E; subst. apply S. now apply (session_header_of client r).
  - destruct (Auth.master client) as [m | e2] eqn:M; [ | discriminate ].
    intros E H. inversion E; subst. apply B. now apply (master_header client r).
Qed.

End ResolvedCredentials.

(** X9.  The authorization header is [null] exactly when the auth type is
    'None'.  Any header that is resolved is named Authorization, the
    request has a client, and the value of the header is either Basic
    followed by the base64 text of the client's app key, a colon and the
    client's master or app secret (both truthy), or Kinvey followed by the
    [authtoken] of the metadata block of the client's active user. *)
Theorem authorizationHeader_shape (env : Env) (k : KinveyRequest) :
  (KinveyRequest_authorizationHeader env k = Return None <->
   own_authType k = JsString "None")
  /\ (forall h, KinveyRequest_authorizationHeader env k = Return (Some h) ->
        exists c,
          own_client k = Some c
          /\ name h = "Authorization"
          /\ ((exists secret,
                 (secret = Client.masterSecret c \/ secret = Client.appSecret c)
                 /\ truthy (Client.appKey c) = true /\ truthy secret = true
                 /\ value h = "Basic " ++
                              base64 (String (Client.appKey c) ++ ":" ++ String secret))
              \/ (exists kmd token,
                    truthy (Client.activeUser c) = true
                    /\ member (Client.activeUser c) (kmdAttribute env) = inl kmd
                    /\ member kmd "authtoken" = inl token
                    /\ value h = "Kinvey " ++ String token))).
Proof.
  split; [ apply authorizationHeader_null | ].
  intros h. unfold KinveyRequest_authorizationHeader.
  destruct (resolve_authInfo env (own_authType k) (own_client k)) as [r | e] eqn:R;
    [ | discriminate ].
  intros H. inversion H as [Hh].
  exact (resolved_header env _ _ r h R Hh).
Qed.

Lemma authorizationHeader_shape_witness :
  exists c,
    Some (sample_client JsNull (JsString "secret")) = Some c
    /\ name {| name := "Authorization"; value := "Basic a2lkOnNlY3JldA==" |} = "Authorization"
    /\ (basic_header c {| name := "Authorization"; value := "Basic a2lkOnNlY3JldA==" |}
        \/ session_header sample_env c
             {| name := "Authorization"; value := "Basic a2lkOnNlY3JldA==" |}).
Proof.
  apply (proj2 (authorizationHeader_shape sample_env
                  (sample_request (JsString "Master")
                     (Some (sample_client JsNull (JsString "secret")))))
           {| name := "Authorization"; value := "Basic a2lkOnNlY3JldA==" |}).
  reflexivity.
Defined.

(** X10.  [execute] of an API request completes normally exactly when the
    auth type of the request is 'None' and the request is idle; it then
    sets the executing flag and changes nothing else. *)
Theorem KinveyRequest_execute_succeeds_iff (env : Env) (k : KinveyRequest) :
  (fst (KinveyRequest_execute env k) = Return tt <->
   own_authType k = JsString "None" /\ executing (request k) = false)
  /\ (fst (KinveyRequest_execute env k) = Return tt ->
      snd (KinveyRequest_execute env k) =
      {| request := {| requestConfig := requestConfig (request k); executing := true |};
         own_authType := own_authType k; own_client := own_client k;
         own_query := own_query k |}).
Proof.
  pose proof (authorizationHeader_null env k) as Null.
  unfold KinveyRequest_execute.
  destruct (KinveyRequest_authorizationHeader env k) as [[h | ] | e] eqn:A.
  - split; [ split | ]; try discriminate.
    intros [T _]. apply Null in T. discriminate T.
  - assert (T : own_authType k = JsString "None") by now apply Null.
    unfold bind, ret, on_request, Request_execute, Request_isExecuting.
    destruct (executing (request k)); simpl.
    + split; [ split | ]; try discriminate. intros [_ F]. discriminate F.
    + split; [ split; auto | reflexivity ].
  - split; [ split | ]; try discriminate.
    intros [T _]. apply Null in T. discriminate T.
Qed.

(** ** The base config *)

Section BaseConfig.

Variable env : Env.

Lemma Headers_new_empty arg h : Headers_new arg = Return h -> h = {| headers := None |}.
Proof.
  unfold Headers_new.
  set (a := match arg with JsUndefined => JsObject [] | _ => arg end).
  pose proof (addAll_keeps a {| headers := None |}) as K.
  destruct (Headers_addAll a {| headers := None |}) as [[u | e] h']; [ | discriminate ].
  simpl in K. intros E. inversion E. congruence.
Qed.

Lemma RequestConfig_new_cases options :
  let method := toUpperCase (name_string (option_or options "method" (JsString "GET"))) in
  RequestConfig_new env options =
  if existsb (String.eqb method) RequestMethod then
    match headers_option options with
    | HeadersData v =>
        match Headers_new (result_toJSON v) with
        | Throw e => Throw e
        | Return _ =>
            Return {| configMethod := method; configHeaders := accept_only;
                      configUrl := option_or options "url" (JsString EmptyString);
                      configBody := option_or options "body" JsNull;
                      configTimeout :=
                        timeout_of env (option_or options "timeout" (defaultTimeout env));
                      configFollowRedirect :=
                        truthy (option_or options "followRedirect" (JsBool true));
                      configNoCache := truthy (option_or options "noCache" (JsBool false)) |}
        end
    | HeadersInstance _ =>
        Return {| configMethod := method; configHeaders := accept_only;
                  configUrl := option_or options "url" (JsString EmptyString);
                  configBody := option_or options "body" JsNull;
                  configTimeout :=
                    timeout_of env (option_or options "timeout" (defaultTimeout env));
                  configFollowRedirect :=
                    truthy (option_or options "followRedirect" (JsBool true));
                  configNoCache := truthy (option_or options "noCache" (JsBool false)) |}
    end
  else Throw (Error
         "Invalid request method. Only GET, POST, PATCH, PUT, and DELETE are allowed.").
Proof.
  cbv zeta.
  assert (Data : forall v,
    headers_option options = HeadersData v ->
    RequestConfig_new env options =
    if existsb (String.eqb (toUpperCase (name_string
                  (option_or options "method" (JsString "GET"))))) RequestMethod
    then match Headers_new (result_toJSON v) with
         | Throw e => Throw e
         | Return _ =>
             Return {| configMethod := toUpperCase (name_string
                         (option_or options "method" (JsString "GET")));
                       configHeaders := accept_only;
                       configUrl := option_or options "url" (JsString EmptyString);
                       configBody := option_or options "body" JsNull;
                       configTimeout :=
                         timeout_of env (option_or options "timeout" (defaultTimeout env));
                       configFollowRedirect :=
                         truthy (option_or options "followRedirect" (JsBool true));
                       configNoCache :=
                         truthy (option_or options "noCache" (JsBool false)) |}
         end
    else Throw (Error
           "Invalid request method. Only GET, POST, PATCH, PUT, and DELETE are allowed.")).
  { intros v Hv. unfold RequestConfig_new. fold (headers_option options). rewrite Hv.
    unfold bind at 1. unfold RequestConfig_set_method at 1.
    destruct (existsb _ RequestMethod); [ | reflexivity ].
    unfold bind at 1. unfold RequestConfig_set_headers at 1.
    destruct (Headers_new (result_toJSON v)) as [h | e] eqn:N; [ | reflexivity ].
    apply Headers_new_empty in N. subst h. reflexivity. }
  assert (Inst : headers_option options = HeadersInstance {| headers := None |} ->
    RequestConfig_new env options =
    if existsb (String.eqb (toUpperCase (name_string
                  (option_or options "method" (JsString "GET"))))) RequestMethod
    then Return {| configMethod := toUpperCase (name_string
                     (option_or options "method" (JsString "GET")));
                   configHeaders := accept_only;
                   configUrl := option_or options "url" (JsString EmptyString);
                   configBody := option_or options "body" JsNull;
                   configTimeout :=
                     timeout_of env (option_or options "timeout" (defaultTimeout env));
                   configFollowRedirect :=
                     truthy (option_or options "followRedirect" (JsBool true));
                   configNoCache :=
                     truthy (option_or options "noCache" (JsBool false)) |}
    else Throw (Error
           "Invalid request method. Only GET, POST, PATCH, PUT, and DELETE are allowed.")).
  { intros Hi. unfold RequestConfig_new. fold (headers_option options). rewrite Hi.
    unfold bind at 1. unfold RequestConfig_set_method at 1.
    destruct (existsb _ RequestMethod); reflexivity. }
  destruct (headers_option options) as [h | v] eqn:Ho.
  - assert (h = {| headers := None |}).
    { unfold headers_option in Ho. destruct options; try (inversion Ho; reflexivity).
      destruct (has_key "headers" props); inversion Ho; reflexivity. }
    subst h. now apply Inst.
  - now apply Data.
Qed.

End BaseConfig.

Lemma existsb_eqb_In (m : string) (l : list string) :
  existsb (String.eqb m) l = true <-> In m l.
Proof.
  rewrite existsb_exists. split.
  - intros (x & H & E). apply String.eqb_eq in E. now subst.
  - intros H. exists m. split; [ exact H | apply String.eqb_refl ].
Qed.

Lemma existsb_eqb_not_In (m : string) (l : list string) :
  existsb (String.eqb m) l = false <-> ~ In m l.
Proof.
  rewrite <- existsb_eqb_In. destruct (existsb _ l); split; congruence.
Qed.

Lemma RequestConfig_new_ok (env : Env) (options : JsValue) (c : RequestConfig) :
  RequestConfig_new env options = Return c -> config_ok env c.
Proof.
  rewrite RequestConfig_new_cases. cbv zeta.
  destruct (existsb _ RequestMethod) eqn:M; [ | discriminate ].
  apply existsb_eqb_In in M.
  assert (T : forall t, isNumber (timeout_of env t) = true
                        \/ timeout_of env t = defaultTimeout env).
  { intros t. unfold timeout_of. destruct (isNumber t) eqn:N; auto. }
  destruct (headers_option options) as [h | v];
    [ | destruct (Headers_new (result_toJSON v)); [ | discriminate ] ];
    intros E; inversion E; subst; split; simpl; auto.
Qed.

Lemma RequestConfig_run_ok (env : Env) (op : RequestConfigOp) (c : RequestConfig) :
  config_ok env c -> config_ok env (snd (RequestConfig_run env op c)).
Proof.
  intros [M T]. destruct op; simpl; try (split; assumption).
  - unfold RequestConfig_set_method.
    destruct (existsb _ RequestMethod) eqn:E; simpl; [ | split; assumption ].
    split; [ now apply existsb_eqb_In | exact T ].
  - unfold RequestConfig_set_headers. destruct arg as [h | v]; simpl; [ split; assumption | ].
    destruct (Headers_new (result_toJSON v)); simpl; split; assumption.
  - split; [ exact M | ]. simpl. destruct (isNumber timeout) eqn:N; auto.
Qed.

(** X11.  A config that [new RequestConfig(options)] returns, options given
    as data, holds the accept header and nothing else in its header map; its
    method is the upper-cased [method] option (GET by default), its timeout
    the [timeout] option when a number and the default otherwise, its url
    and body the options or the empty string and null, and its two flags the
    options coerced to booleans (true and false by default). *)
Theorem RequestConfig_new_result (env : Env) (options : JsValue) (c : RequestConfig) :
  RequestConfig_new env options = Return c ->
  c = {| configMethod :=
           toUpperCase (name_string (option_or options "method" (JsString "GET")));
         configHeaders :=
           {| headers := Some [("accept", JsString "application/json; charset=utf-8")] |};
         configUrl := option_or options "url" (JsString EmptyString);
         configBody := option_or options "body" JsNull;
         configTimeout :=
           (let t := option_or options "timeout" (defaultTimeout env) in
            if isNumber t then t else defaultTimeout env);
         configFollowRedirect := truthy (option_or options "followRedirect" (JsBool true));
         configNoCache := truthy (option_or options "noCache" (JsBool false)) |}
  /\ In (configMethod c) RequestMethod
  /\ Headers_get (JsString "Accept") (configHeaders c)
     = JsString "application/json; charset=utf-8".
Proof.
  intros H. pose proof (RequestConfig_new_ok env options c H) as [M _].
  rewrite RequestConfig_new_cases in H. cbv zeta in H.
  destruct (existsb _ RequestMethod); [ | discriminate ].
  destruct (headers_option options) as [h | v];
    [ | destruct (Headers_new (result_toJSON v)); [ | discriminate ] ];
    inversion H; subst; repeat split; exact M.
Qed.

Lemma RequestConfig_new_result_witness :
  Headers_get (JsString "Accept")
    (configHeaders
       {| configMethod := "PUT"; configHeaders := accept_only;
          configUrl := JsString EmptyString; configBody := JsNull;
          configTimeout := JsNumber 30; configFollowRedirect := true;
          configNoCache := false |})
  = JsString "application/json; charset=utf-8".
Proof.
  apply (RequestConfig_new_result sample_env
           (JsObject [("method", JsString "put"); ("timeout", JsString "5")])
           {| configMethod := "PUT"; configHeaders := accept_only;
              configUrl := JsString EmptyString; configBody := JsNull;
              configTimeout := JsNumber 30; configFollowRedirect := true;
              configNoCache := false |}
           eq_refl).
Defined.



(** X13.  Every config of the base class, constructed and then changed by
    any of its setters, has one of the five methods as its method, and a
    timeout that is a number or the default timeout. *)
Theorem RequestConfig_method_and_timeout (env : Env) (c : RequestConfig) :
  RequestConfig_reachable env c ->
  In (configMethod c) ["GET"; "POST"; "PATCH"; "PUT"; "DELETE"]
  /\ (isNumber (configTimeout c) = true \/ configTimeout c = defaultTimeout env).
Proof.
  induction 1 as [ options c H | op c Hr IH ].
  - exact (RequestConfig_new_ok env options c H).
  - exact (RequestConfig_run_ok env op c IH).
Qed.

Lemma RequestConfig_method_and_timeout_witness :
  In (configMethod
        (snd (RequestConfig_run sample_env (OpConfigMethod (JsString "delete"))
                sample_config)))
     ["GET"; "POST"; "PATCH"; "PUT"; "DELETE"].
Proof.
  apply (RequestConfig_method_and_timeout sample_env
           (snd (RequestConfig_run sample_env (OpConfigMethod (JsString "delete"))
                   sample_config))).
  apply config_run.
  apply (config_new sample_env (JsObject [("url", JsString "https://x/y")])).
  reflexivity.
Defined.

(** ** Requests *)

Section Requests.

Variable env : Env.
Variable stack : nat.
Variable token : string.

Lemma Request_get_headers_kinvey r c :
  requestConfig r = Some (KinveyConfig c) ->
  exists e r', Request_get_headers env stack r = (Throw e, r').
Proof.
  intros C. unfold Request_get_headers, on_config, dispatch. rewrite C.
  pose proof (get_headers_throws env stack c) as H.
  destruct (KinveyRequestConfig_get_headers env stack c) as [[v | e] c'].
  - simpl in H. destruct H; discriminate.
  - eexists _, _. reflexivity.
Qed.

Lemma Request_get_method_requestConfig r :
  exists r', snd (Request_get_method r) = r'
             /\ (forall c, requestConfig r = Some (KinveyConfig c) ->
                   requestConfig r' = Some (KinveyConfig c) /\ executing r' = executing r).
Proof.
  eexists. split; [ reflexivity | ].
  intros c C. unfold Request_get_method, on_config, plain. rewrite C.
  unfold on_super, RequestConfig_get_method. simpl.
  split; [ | reflexivity ]. now destruct c.
Qed.

End Requests.

(** X14.  Through a request that wraps a config of the base class, a
    setter followed by the matching getter returns what was assigned: the
    method upper-cased (an invalid method throws and leaves the request as
    it was), the body under either of its names [body] and [data], and the
    url unless [noCache] is set. *)
Theorem Request_set_then_get (env : Env) (token : string) (r : Request)
  (c : RequestConfig) :
  requestConfig r = Some (PlainConfig c) ->
  (forall m, In (toUpperCase (name_string m)) RequestMethod ->
     fst (Request_get_method (snd (Request_set_method m r)))
     = Return (JsString (toUpperCase (name_string m))))
  /\ (forall m, ~ In (toUpperCase (name_string m)) RequestMethod ->
        Request_set_method m r =
        (Throw (Error
           "Invalid request method. Only GET, POST, PATCH, PUT, and DELETE are allowed."),
         r))
  /\ (forall b, fst (Request_get_data (snd (Request_set_body b r))) = Return b
                /\ fst (Request_get_body (snd (Request_set_data b r))) = Return b)
  /\ (forall u, configNoCache c = false ->
        fst (Request_get_url env token (snd (Request_set_url env u r))) = Return u).
Proof.
  intros C. split; [ | split; [ | split ] ].
  - intros m M. apply existsb_eqb_In in M.
    unfold Request_get_method, Request_set_method, on_config, plain.
    rewrite C. unfold RequestConfig_set_method. rewrite M. reflexivity.
  - intros m M. apply existsb_eqb_not_In in M.
    unfold Request_set_method, on_config, plain.
    rewrite C. unfold RequestConfig_set_method. rewrite M.
    destruct r as [rc ex]. simpl in C. subst rc. reflexivity.
  - intros b. unfold Request_get_data, Request_set_data, Request_get_body,
      Request_set_body, on_config, plain. rewrite C. split; reflexivity.
  - intros u N. unfold Request_get_url, Request_set_url, on_config, dispatch.
    rewrite C. simpl. unfold RequestConfig_get_url. simpl. now rewrite N.
Qed.

Lemma Request_set_then_get_witness :
  fst (Request_get_method
         (snd (Request_set_method (JsString "patch")
                 {| requestConfig := Some (PlainConfig sample_config);
                    executing := false |})))
  = Return (JsString "PATCH").
Proof.
  apply (proj1 (Request_set_then_get sample_env "t"
                  {| requestConfig := Some (PlainConfig sample_config);
                     executing := false |}
                  sample_config eq_refl)
           (JsString "patch")).
  simpl. tauto.
Defined.

(** X15.  On a request whose config is [null], every member that goes
    through the config (all but the [config] setter and [execute]) throws a
    TypeError and leaves the request as it was. *)
Theorem Request_without_config (env : Env) (stack : nat) (token : string)
  (op : RequestOp) (r : Request) :
  requestConfig r = None -> uses_config op = true ->
  exists message, Request_run env stack token op r = (Throw (TypeError message), r).
Proof.
  intros C U.
  destruct op; try discriminate U; simpl;
    unfold discard, Request_get_method, Request_set_method, Request_get_headers,
      Request_set_headers, Request_get_url, Request_set_url, Request_get_data,
      Request_set_data, Request_get_body, Request_set_body, Request_toJSON,
      Request_get_method, bind, on_config;
    rewrite C; eexists; reflexivity.
Qed.

Lemma Request_without_config_witness :
  exists message,
    Request_run sample_env 8 "t" OpToJSON {| requestConfig := None; executing := false |}
    = (Throw (TypeError message), {| requestConfig := None; executing := false |}).
Proof.
  apply (Request_without_config sample_env 8 "t" OpToJSON
           {| requestConfig := None; executing := false |});
    reflexivity.
Defined.

(** X16.  On a request that wraps a config of the base class, the members
    that read (the getters and [toJSON]) leave the request as it was, the
    cache-busting read of [url] included. *)
Theorem Request_reads_change_nothing (env : Env) (stack : nat) (token : string)
  (op : RequestOp) (r : Request) (c : RequestConfig) :
  requestConfig r = Some (PlainConfig c) -> reads op = true ->
  snd (Request_run env stack token op r) = r.
Proof.
  intros C R. destruct r as [rc ex]. simpl in C. subst rc.
  destruct c as [m h u b t f n].
  destruct op; try discriminate R; simpl;
    unfold discard, Request_get_method, Request_get_headers, Request_get_url,
      Request_get_data, Request_get_body, Request_toJSON, bind, on_config, plain,
      dispatch, ret, RequestConfig_get_url;
    simpl; try reflexivity; destruct n; reflexivity.
Qed.

Lemma Request_reads_change_nothing_witness :
  snd (Request_run sample_env 8 "t" OpToJSON
         {| requestConfig := Some (PlainConfig sample_config); executing := true |})
  = {| requestConfig := Some (PlainConfig sample_config); executing := true |}.
Proof.
  apply (Request_reads_change_nothing sample_env 8 "t" OpToJSON
           {| requestConfig := Some (PlainConfig sample_config); executing := true |}
           sample_config);
    reflexivity.
Defined.

(** X17.  On a request that wraps an API config, neither a read of
    [headers] nor [toJSON] ever returns: both end in a thrown error,
    whatever the state of the config and the depth of stack left. *)
Theorem Request_toJSON_never_returns (env : Env) (stack : nat) (token : string)
  (r : Request) (c : KinveyRequestConfig) :
  requestConfig r = Some (KinveyConfig c) ->
  (exists e, fst (Request_get_headers env stack r) = Throw e)
  /\ (exists e, fst (Request_toJSON env stack token r) = Throw e).
Proof.
  intros C. split.
  - destruct (Request_get_headers_kinvey env stack r c C) as (e & r' & H).
    exists e. now rewrite H.
  - unfold Request_toJSON. unfold bind at 1.
    destruct (Request_get_method_requestConfig r) as (r1 & E1 & K).
    destruct (K c C) as [C1 _].
    destruct (Request_get_method r) as [[m | e] r0] eqn:G; simpl in E1; subst r0.
    + unfold bind at 1.
      destruct (Request_get_headers_kinvey env stack r1 c C1) as (e & r' & H).
      rewrite H. now exists e.
    + now exists e.
Qed.

Lemma Request_toJSON_never_returns_witness :
  exists e,
    fst (Request_toJSON sample_env 16 "t"
           {| requestConfig := Some (KinveyConfig (sample_kinvey_config [] JsUndefined None));
              executing := false |})
    = Throw e.
Proof.
  apply (Request_toJSON_never_returns sample_env 16 "t"
           {| requestConfig := Some (KinveyConfig (sample_kinvey_config [] JsUndefined None));
              executing := false |}
           (sample_kinvey_config [] JsUndefined None) eq_refl).
Defined.

(** ** The API config, further *)

Section AppVersionHeader.

Variable env : Env.

Lemma same_but_refl c : same_but_app_version c c.
Proof.
  repeat split.
  - destruct c as [s]. destruct s. reflexivity.
  - destruct c. reflexivity.
Qed.

Lemma same_but_trans c1 c2 c3 :
  same_but_app_version c1 c2 -> same_but_app_version c2 c3 -> same_but_app_version c1 c3.
Proof.
  intros (L1 & S1 & K1) (L2 & S2 & K2). repeat split.
  - intros k Hk. now rewrite (L2 k Hk), (L1 k Hk).
  - rewrite <- S1. rewrite <- S2. destruct (super c3). reflexivity.
  - rewrite <- K1. rewrite <- K2. rewrite <- S1. destruct c3. reflexivity.
Qed.

Lemma refresh_state c :
  refresh_appVersion_header c = (Return tt, snd (refresh_appVersion_header c))
  /\ configProperties (snd (refresh_appVersion_header c)) = configProperties c
  /\ configAppVersion (snd (refresh_appVersion_header c)) = configAppVersion c.
Proof.
  destruct (refresh_returns c) as (c' & R & P & V). rewrite R. simpl. auto.
Qed.

Lemma refresh_same_but c : same_but_app_version c (snd (refresh_appVersion_header c)).
Proof.
  unfold refresh_appVersion_header, bind, KinveyRequestConfig_get_appVersion.
  destruct (truthy (configAppVersion c)) eqn:T.
  - unfold on_super, on_headers, Headers_set. rewrite T. simpl.
    destruct c as [s]. destruct s as [m h]. simpl. repeat split.
    intros k Hk. unfold headers_or_empty at 1. simpl.
    destruct (negb (isString configAppVersion0)); apply lookup_assign_other; exact Hk.
  - unfold on_super, on_headers, Headers_remove. simpl.
    destruct c as [s]. destruct s as [m h]. simpl. repeat split.
    intros k Hk. unfold headers_or_empty at 1. simpl.
    apply lookup_delete_other. exact Hk.
Qed.

Lemma get_headers_state stack c :
  snd (KinveyRequestConfig_get_headers env (S stack) c) =
  if properties_bytes c >=? customPropertiesMaxBytesAllowed env
  then snd (refresh_appVersion_header c)
  else snd (KinveyRequestConfig_get_headers env stack (snd (refresh_appVersion_header c))).
Proof.
  destruct (refresh_returns c) as (c' & R & P & V).
  replace (snd (refresh_appVersion_header c)) with c' by (now rewrite R).
  simpl. unfold bind at 1. unfold on_super at 1. simpl.
  replace (store_super (super c) c) with c by now destruct c.
  unfold bind at 1. rewrite R.
  fold (properties_bytes c'). unfold properties_bytes. rewrite P.
  destruct (_ >=? _); [ reflexivity | ].
  unfold bind at 1.
  pose proof (get_headers_throws env stack c') as H.
  destruct (KinveyRequestConfig_get_headers env stack c') as [[v | e] c''].
  - simpl in H. destruct H; discriminate.
  - reflexivity.
Qed.

Lemma get_headers_same_but stack : forall c,
  same_but_app_version c (snd (KinveyRequestConfig_get_headers env stack c)).
Proof.
  induction stack as [ | stack IH ]; intros c.
  - apply same_but_refl.
  - rewrite get_headers_state. destruct (_ >=? _).
    + apply refresh_same_but.
    + eapply same_but_trans; [ apply refresh_same_but | apply IH ].
Qed.

Lemma get_headers_last_refresh stack : forall c,
  exists c0,
    snd (KinveyRequestConfig_get_headers env (S stack) c) = snd (refresh_appVersion_header c0)
    /\ configAppVersion c0 = configAppVersion c
    /\ (keys_unique (headers_or_empty (configHeaders (super c))) ->
        keys_unique (headers_or_empty (configHeaders (super c0)))).
Proof.
  induction stack as [ | stack IH ]; intros c; rewrite get_headers_state.
  - destruct (_ >=? _).
    + exists c. auto.
    + exists c. auto.
  - destruct (_ >=? _); [ exists c; auto | ].
    destruct (IH (snd (refresh_appVersion_header c))) as (c0 & E & V & U).
    exists c0. split; [ exact E | split ].
    + rewrite V. apply refresh_state.
    + intros Hu. apply U. clear - Hu.
      unfold refresh_appVersion_header, bind, KinveyRequestConfig_get_appVersion.
      destruct (truthy (configAppVersion c)) eqn:T.
      * unfold on_super, on_headers, Headers_set. rewrite T. simpl.
        destruct (negb (isString (configAppVersion c))); now apply assign_unique.
      * unfold on_super, on_headers, Headers_remove. simpl. now apply delete_unique.
Qed.

Lemma refresh_truthy c :
  truthy (configAppVersion c) = true ->
  lookup app_version_name
    (headers_or_empty (configHeaders (super (snd (refresh_appVersion_header c)))))
  = stored (configAppVersion c).
Proof.
  intros T. unfold refresh_appVersion_header, bind, KinveyRequestConfig_get_appVersion.
  rewrite T. unfold on_super, on_headers.
  rewrite (set_store (JsString "X-Kinvey-Client-App-Version") (configAppVersion c)
             (configHeaders (super c)) eq_refl T).
  simpl.
  apply lookup_assign_same. discriminate.
Qed.

Lemma refresh_falsy c :
  truthy (configAppVersion c) = false ->
  keys_unique (headers_or_empty (configHeaders (super c))) ->
  has_key app_version_name
    (headers_or_empty (configHeaders (super (snd (refresh_appVersion_header c)))))
  = false.
Proof.
  intros T Hu. unfold refresh_appVersion_header, bind, KinveyRequestConfig_get_appVersion.
  rewrite T. unfold on_super, on_headers, Headers_remove. simpl.
  now apply delete_absent.
Qed.

End AppVersionHeader.

(** X18.  The [appVersion] setter never uses the second element of the
    array assigned; it stores a string; when the fourth element is truthy
    the string stored is a dot followed by that element, whatever the other
    elements; and when the first, third and fourth elements are all falsy
    it stores the empty string. *)
Theorem KinveyRequestConfig_appVersion_ignores_minor (c : KinveyRequestConfig)
  (a b b' : JsValue) (rest : list JsValue) :
  KinveyRequestConfig_set_appVersion (a :: b :: rest) c
  = KinveyRequestConfig_set_appVersion (a :: b' :: rest) c
  /\ (exists s, configAppVersion
                  (snd (KinveyRequestConfig_set_appVersion (a :: b :: rest) c))
                = JsString s)
  /\ (forall x y more, rest = x :: y :: more -> truthy y = true ->
        configAppVersion (snd (KinveyRequestConfig_set_appVersion (a :: b :: rest) c))
        = JsString (trim ("." ++ String y)))
  /\ (truthy a = false -> truthy (nth 0 rest JsUndefined) = false ->
      truthy (nth 1 rest JsUndefined) = false ->
      configAppVersion (snd (KinveyRequestConfig_set_appVersion (a :: b :: rest) c))
      = JsString EmptyString).
Proof.
  split; [ reflexivity | split; [ eexists; reflexivity | split ] ].
  - intros x y more E T. subst rest. unfold KinveyRequestConfig_set_appVersion.
    simpl. now rewrite T.
  - intros Ta Tx Ty. unfold KinveyRequestConfig_set_appVersion. simpl.
    now rewrite Ta, Tx, Ty.
Qed.

Lemma KinveyRequestConfig_appVersion_ignores_minor_witness :
  configAppVersion
    (snd (KinveyRequestConfig_set_appVersion
            [JsNumber 1; JsNumber 2; JsNumber 3; JsNumber 4]
            (sample_kinvey_config [] JsUndefined None)))
  = JsString ".4".
Proof.
  apply (proj1 (proj2 (proj2 (KinveyRequestConfig_appVersion_ignores_minor
           (sample_kinvey_config [] JsUndefined None)
           (JsNumber 1) (JsNumber 2) JsNull [JsNumber 3; JsNumber 4])))
           (JsNumber 3) (JsNumber 4) [] eq_refl eq_refl).
Defined.

(** X19.  A read of [headers] on an API config, however it ends, changes
    nothing of the config but the app-version header of its header map:
    every other header, the custom-properties header among them, is as
    before (so that header is never stored), and so are the properties, the
    app version and the fields of the base class. *)
Theorem KinveyRequestConfig_headers_read_frame (env : Env) (stack : nat)
  (c : KinveyRequestConfig) :
  let c' := snd (KinveyRequestConfig_get_headers env stack c) in
  (forall k, k <> "X-Kinvey-Client-App-Version" ->
     lookup k (headers_or_empty (configHeaders (super c')))
     = lookup k (headers_or_empty (configHeaders (super c))))
  /\ lookup "X-Kinvey-Custom-Request-Properties"
       (headers_or_empty (configHeaders (super c')))
     = lookup "X-Kinvey-Custom-Request-Properties"
         (headers_or_empty (configHeaders (super c)))
  /\ configProperties c' = configProperties c
  /\ configAppVersion c' = configAppVersion c
  /\ query c' = query c
  /\ configUrl (super c') = configUrl (super c)
  /\ configMethod (super c') = configMethod (super c)
  /\ configBody (super c') = configBody (super c)
  /\ configNoCache (super c') = configNoCache (super c).
Proof.
  cbv zeta.
  destruct (get_headers_same_but env stack c) as (L & S & K).
  set (c' := snd (KinveyRequestConfig_get_headers env stack c)) in *.
  assert (Own : forall {A} (f : KinveyRequestConfig -> A),
            (forall s x, f (store_super s x) = f x) -> f c' = f c).
  { intros A f Hf. rewrite <- K. now rewrite Hf. }
  assert (Base : forall {A} (f : RequestConfig -> A),
            (forall h x, f (store_headers h x) = f x) -> f (super c') = f (super c)).
  { intros A f Hf. rewrite <- S. now rewrite Hf. }
  split; [ exact L | split; [ apply L; discriminate | ] ].
  repeat split;
    first [ apply (Own _ configProperties) | apply (Own _ configAppVersion)
          | apply (Own _ query) | apply (Base _ configUrl)
          | apply (Base _ configMethod) | apply (Base _ configBody)
          | apply (Base _ configNoCache) ];
    reflexivity.
Qed.

(** X20.  After a read of [headers] on an API config with at least one
    frame of stack left, the stored header map agrees with the app
    version: when [appVersion] is truthy, the property of the header's
    exact name holds what [set] stores for it; when [appVersion] is falsy
    and the map lists no name twice, no property of that name is left. *)
Theorem KinveyRequestConfig_headers_read_syncs_appVersion (env : Env) (stack : nat)
  (c : KinveyRequestConfig) :
  let c' := snd (KinveyRequestConfig_get_headers env (S stack) c) in
  (truthy (configAppVersion c) = true ->
   lookup "X-Kinvey-Client-App-Version" (headers_or_empty (configHeaders (super c')))
   = stored (configAppVersion c))
  /\ (truthy (configAppVersion c) = false ->
      NoDup (map fst (headers_or_empty (configHeaders (super c)))) ->
      has_key "X-Kinvey-Client-App-Version"
        (headers_or_empty (configHeaders (super c'))) = false).
Proof.
  cbv zeta. destruct (get_headers_last_refresh env stack c) as (c0 & E & V & U).
  rewrite E, <- V. split; intros T.
  - now apply refresh_truthy.
  - intros Hu. apply refresh_falsy; [ exact T | now apply U ].
Qed.

Lemma KinveyRequestConfig_headers_read_syncs_appVersion_witness :
  lookup "X-Kinvey-Client-App-Version"
    (headers_or_empty
       (configHeaders
          (super (snd (KinveyRequestConfig_get_headers sample_env 3
                         (sample_kinvey_config [] (JsString "1.2.3") None))))))
  = JsString "1.2.3".
Proof.
  apply (proj1 (KinveyRequestConfig_headers_read_syncs_appVersion sample_env 2
                  (sample_kinvey_config [] (JsString "1.2.3") None))).
  reflexivity.
Defined.

(** ** The Properties class *)

Section PropertiesStore.

Lemma forEach_preserves {S A} (P : S -> Prop) (f : A -> Method S unit) (xs : list A) :
  (forall x s, P s -> P (snd (f x s))) ->
  forall s, P s -> P (snd (forEach xs f s)).
Proof.
  intros Hf. induction xs as [ | x r IH ]; intros s Hs; simpl; [ exact Hs | ].
  unfold bind. specialize (Hf x s Hs).
  destruct (f x s) as [[u | e] s']; simpl in *; [ now apply IH | exact Hf ].
Qed.

Lemma update_truthy k v o :
  truthy v = true -> Forall (fun kv => truthy (snd kv) = true) o ->
  Forall (fun kv : string * JsValue => truthy (snd kv) = true) (update k v o).
Proof.
  intros Hv Ho. induction Ho as [ | [k' v'] r Hx Hr IH ]; simpl; [ constructor | ].
  destruct (k' =? k)%string; constructor; auto.
Qed.

Lemma insert_new_truthy k v o :
  truthy v = true -> Forall (fun kv => truthy (snd kv) = true) o ->
  Forall (fun kv : string * JsValue => truthy (snd kv) = true) (insert_new k v o).
Proof.
  intros Hv Ho. induction Ho as [ | [k' v'] r Hx Hr IH ]; simpl.
  - repeat constructor. exact Hv.
  - destruct (array_index k), (array_index k');
      try destruct (_ <? _); repeat (constructor; auto).
Qed.

Lemma delete_truthy k o :
  Forall (fun kv => truthy (snd kv) = true) o ->
  Forall (fun kv : string * JsValue => truthy (snd kv) = true) (delete k o).
Proof.
  intros Ho. induction Ho as [ | [k' v'] r Hx Hr IH ]; simpl; [ constructor | ].
  destruct (k' =? k)%string; [ exact Hr | constructor; auto ].
Qed.

Lemma put_ok key value p : properties_ok p -> properties_ok (snd (Properties_put key value p)).
Proof.
  intros [Hv Hu]. unfold Properties_put.
  destruct (truthy value) eqn:T; destruct (properties p) as [o | ] eqn:E;
    simpl; try (split; assumption);
    unfold properties_ok, properties_or_empty in *; rewrite E in *; simpl.
  - split; [ | now apply assign_unique ].
    unfold assign. destruct (key =? "__proto__")%string; [ exact Hv | ].
    destruct (has_key key o); [ now apply update_truthy | now apply insert_new_truthy ].
  - split; [ now apply delete_truthy | now apply delete_unique ].
Qed.

Lemma addProperties_ok arg p :
  properties_ok p -> properties_ok (snd (Properties_addProperties arg p)).
Proof.
  intros H. destruct arg; try exact H.
  unfold Properties_addProperties. apply forEach_preserves; [ | exact H ].
  intros x s. apply put_ok.
Qed.

Lemma Properties_run_ok op p : properties_ok p -> properties_ok (snd (Properties_run op p)).
Proof.
  intros H. destruct op; simpl.
  - exact H.
  - exact H.
  - unfold Properties_set.
    destruct (String key =? "__proto__")%string; [ destruct (isObject value0) | ];
      [ exact H | apply addProperties_ok; exact H | apply addProperties_ok; exact H ].
  - unfold Properties_remove. destruct (truthy key); [ | exact H ].
    destruct (properties p) as [o | ] eqn:E; [ | exact H ].
    destruct (Properties_hasOwnProperty o (String key)) as [[ | ] | e];
      [ | exact H | exact H ].
    destruct H as [Hv Hu]. unfold properties_ok, properties_or_empty in *.
    rewrite E in *. simpl.
    split; [ now apply delete_truthy | now apply delete_unique ].
  - apply addProperties_ok. exact H.
  - split; constructor.
Qed.

Lemma Properties_reachable_ok p : Properties_reachable p -> properties_ok p.
Proof.
  induction 1 as [ | op p Hr IH ].
  - split; constructor.
  - now apply Properties_run_ok.
Qed.

Lemma Properties_set_one key value p :
  String key <> "__proto__" ->
  Properties_set key value p =
  match Properties_put (String key) value p with
  | (Return _, p') => (Return tt, p')
  | (Throw e, p') => (Throw e, p')
  end.
Proof.
  intros Hp. unfold Properties_set, assign.
  rewrite (proj2 (String.eqb_neq _ _) Hp). simpl.
  rewrite String.eqb_refl. unfold bind, ret.
  destruct (Properties_put (String key) value p) as [[[] | e] p']; reflexivity.
Qed.

End PropertiesStore.

(** X21.  A [Properties] instance never answers [get] or [has]: both throw
    a TypeError at [this.toJSON] and change nothing.  Until [clear] has
    been called, [set] with any name but [__proto__] and [remove] with any
    truthy name throw a TypeError as well. *)
Theorem Properties_unusable_until_clear (p : Properties) (key value : JsValue) :
  Properties_get key p = (Throw (TypeError "this.toJSON is not a function"), p)
  /\ Properties_has key p = (Throw (TypeError "this.toJSON is not a function"), p)
  /\ (properties p = None -> String key <> "__proto__" ->
      exists message, Properties_set key value p = (Throw (TypeError message), p))
  /\ (properties p = None -> truthy key = true ->
      exists message, Properties_remove key p = (Throw (TypeError message), p)).
Proof.
  split; [ reflexivity | split; [ reflexivity | split ] ].
  - intros N Hp. rewrite (Properties_set_one key value p Hp).
    unfold Properties_put. rewrite N. destruct (truthy value); eexists; reflexivity.
  - intros N T. unfold Properties_remove. rewrite T, N. eexists. reflexivity.
Qed.

Lemma Properties_unusable_until_clear_witness :
  exists message,
    Properties_set (JsString "a") (JsNumber 1) {| properties := None |}
    = (Throw (TypeError message), {| properties := None |}).
Proof.
  apply (proj1 (proj2 (proj2 (Properties_unusable_until_clear {| properties := None |}
                                (JsString "a") (JsNumber 1))))).
  - reflexivity.
  - discriminate.
Defined.

(** X22.  In a [Properties] store produced by the class every value is
    truthy and no name is listed twice. *)
Theorem Properties_values_truthy (p : Properties) :
  Properties_reachable p ->
  (forall k v, In (k, v) (properties_or_empty p) -> truthy v = true)
  /\ NoDup (map fst (properties_or_empty p)).
Proof.
  intros Hr. destruct (Properties_reachable_ok p Hr) as [Hv Hu].
  split; [ | exact Hu ].
  intros k v Hin. rewrite Forall_forall in Hv. exact (Hv (k, v) Hin).
Qed.

Lemma Properties_values_truthy_witness :
  NoDup (map fst (properties_or_empty
    (snd (Properties_run (OpPropertiesSet (JsString "a") (JsNumber 1))
       (snd (Properties_run OpPropertiesClear {| properties := None |})))))).
Proof.
  apply Properties_values_truthy.
  apply properties_run. apply properties_run. apply properties_new.
Defined.

(** X23.  Once the store exists, [set(key, value)] with a name other than
    [__proto__] completes normally: with a truthy value the property of that
    name holds the value afterwards, with a falsy value the property is
    removed (the store listing no name twice); in both cases every other
    property is as before.  With the name [__proto__] it changes nothing:
    it throws the must-be-an-object error when the value is an object or a
    function, and returns normally for any other value. *)
Theorem Properties_set_stores_or_removes (p : Properties) (o : list (string * JsValue))
  (key value : JsValue) :
  properties p = Some o ->
  let p' := snd (Properties_set key value p) in
  (String key <> "__proto__" ->
   fst (Properties_set key value p) = Return tt
   /\ (truthy value = true -> lookup (String key) (properties_or_empty p') = value)
   /\ (truthy value = false -> NoDup (map fst o) ->
       has_key (String key) (properties_or_empty p') = false)
   /\ (forall k, k <> String key -> lookup k (properties_or_empty p') = lookup k o))
  /\ (String key = "__proto__" ->
      Properties_set key value p =
      if isObject value
      then (Throw (KinveyError "properties argument must be an object"), p)
      else (Return tt, p)).
Proof.
  intros E. cbv zeta. split.
  - intros Hp. rewrite (Properties_set_one key value p Hp).
    unfold Properties_put. rewrite E.
    destruct (truthy value); simpl; (split; [ reflexivity | ]);
      unfold properties_or_empty; simpl; repeat split; try discriminate; intros.
    + now apply lookup_assign_same.
    + now apply lookup_assign_other.
    + now apply delete_absent.
    + now apply lookup_delete_other.
  - intros Hp. unfold Properties_set. rewrite Hp. simpl.
    destruct (isObject value); reflexivity.
Qed.

Lemma Properties_set_stores_or_removes_witness :
  lookup "a" (properties_or_empty
    (snd (Properties_set (JsString "a") (JsNumber 1) {| properties := Some [] |})))
  = JsNumber 1.
Proof.
  apply (proj1 (Properties_set_stores_or_removes {| properties := Some [] |} []
                  (JsString "a") (JsNumber 1) eq_refl)).
  - discriminate.
  - reflexivity.
Defined.

(** ** The url of an API request *)

(** X24.  A read of [url] on an API request takes the url of its config
    and appends the query string of the request's own [query] property when
    that is not empty; the request is left as it was.  When the config is an
    API config with a query of its own, the url that comes back has both
    query strings appended, the config's first. *)
Theorem KinveyRequest_url_appends_own_query (env : Env) (token : string)
  (k : KinveyRequest) (c : KinveyRequestConfig) :
  requestConfig (request k) = Some (KinveyConfig c) ->
  configNoCache (super c) = false ->
  (own_query k = None ->
   KinveyRequest_get_url env token k
   = (fst (KinveyRequestConfig_get_url env token c), k))
  /\ (forall q q2,
        query c = Some q -> own_query k = Some q2 ->
        isEmpty (toQueryString q) = false -> isEmpty (toQueryString q2) = false ->
        KinveyRequest_get_url env token k =
        (Return (JsString
           (appendQuery env
              (JsString (appendQuery env (configUrl (super c))
                           (qs_stringify env (toQueryString q))))
              (qs_stringify env (toQueryString q2)))), k)).
Proof.
  destruct k as [r t cl oq]. cbn [request own_query]. intros C N.
  assert (Base : Request_get_url env token r
                 = (fst (KinveyRequestConfig_get_url env token c), r)).
  { unfold Request_get_url, on_config, dispatch. rewrite C.
    unfold KinveyRequestConfig_get_url, bind, on_super, RequestConfig_get_url.
    rewrite N. destruct r as [rc ex]. simpl in C. subst rc.
    destruct c as [s]. destruct s. simpl.
    destruct (isEmpty _); reflexivity. }
  split.
  - intros Q. subst oq. unfold KinveyRequest_get_url, bind, on_request.
    cbn [request own_query]. rewrite Base.
    destruct (fst (KinveyRequestConfig_get_url env token c)); reflexivity.
  - intros q q2 Q Q2 E E2. subst oq.
    unfold KinveyRequest_get_url, bind, on_request.
    cbn [request own_query]. rewrite Base.
    unfold KinveyRequestConfig_get_url, bind, on_super, RequestConfig_get_url.
    rewrite N. cbn [fst snd store_super query super]. rewrite Q.
    cbn [fst snd]. rewrite E. cbn [fst snd own_query]. rewrite E2. reflexivity.
Qed.

Lemma KinveyRequest_url_appends_own_query_witness :
  KinveyRequest_get_url sample_env "t"
    {| request :=
         {| requestConfig :=
              Some (KinveyConfig (sample_kinvey_config [] JsUndefined
                      (Some {| toQueryString := [("a", JsNumber 1)] |})));
            executing := false |};
       own_authType := JsUndefined; own_client := None; own_query := None |}
  = (Return (JsString "https://x/y?a=1"),
     {| request :=
          {| requestConfig :=
               Some (KinveyConfig (sample_kinvey_config [] JsUndefined
                       (Some {| toQueryString := [("a", JsNumber 1)] |})));
             executing := false |};
        own_authType := JsUndefined; own_client := None; own_query := None |}).
Proof.
  apply (proj1 (KinveyRequest_url_appends_own_query sample_env "t"
           {| request :=
                {| requestConfig :=
                     Some (KinveyConfig (sample_kinvey_config [] JsUndefined
                             (Some {| toQueryString := [("a", JsNumber 1)] |})));
                   executing := false |};
              own_authType := JsUndefined; own_client := None; own_query := None |}
           (sample_kinvey_config [] JsUndefined
              (Some {| toQueryString := [("a", JsNumber 1)] |}))
           eq_refl eq_refl)).
  reflexivity.
Defined.
